(** * chans: panic-free wrappers around Go channel operations and pointer
    dereference.

    The development embeds [src/chans.go] (and its sibling revision, which
    differs only in the text of the error messages):

    - [Deref], [Send], [Receive] and [Close] are written over a small
      state-and-panic monad, with the closure/[defer]/[recover] idiom of the
      source as combinators;
    - the primitives they guard ([*ptr], [c <- v], [<-c], [close(c)]) are an
      interface, so that the guards can be studied over any host, and are then
      instantiated with Go's channel semantics on a heap of channel objects. *)

From Stdlib Require Import Ascii.
From stdpp Require Import gmap strings list.

Set Default Proof Using "Type".

(** ** Values *)

(** Heap addresses. A channel value and a pointer value are either [nil]
    ([None]) or the address of a heap object. *)
Definition addr := positive.
Definition chan := option addr.
Definition ptr := option addr.

(** The value carried by a panic, as [recover()] returns it: the runtime
    error text. *)
Definition panic_value := string.

(** [var x T] : every Go type has a zero value. *)
Class Zero (T : Type) := zero : T.

#[export] Instance nat_zero : Zero nat := 0.
#[export] Instance Z_zero : Zero Z := 0%Z.
#[export] Instance bool_zero : Zero bool := false.
#[export] Instance string_zero : Zero string := EmptyString.

(** [ch == nil] on a value of type [chan T]. *)
Definition chan_is_nil (c : chan) : bool :=
  match c with None => true | Some _ => false end.

(** [ptr == nil]. *)
Definition ptr_is_nil (p : ptr) : bool :=
  match p with None => true | Some _ => false end.

(** The constraint [C ~chan T]: a type whose underlying type is [chan T].
    [as_chan] is the conversion [(chan T)(ch)]; it keeps the representation,
    so comparing [ch] with [nil] at type [C] compares that representation. *)
Class ChanLike (C : Type) := as_chan : C → chan.

Definition is_nil `{ChanLike C} (ch : C) : bool := chan_is_nil (as_chan ch).

#[export] Instance chan_ChanLike : ChanLike chan := λ c, c.

(** [type MyChan chan int], the named channel type of the README. *)
Record MyChan := mkMyChan { my_chan : chan }.
#[export] Instance MyChan_ChanLike : ChanLike MyChan := my_chan.

(** ** Errors *)

(** The calls of [fmt.Errorf] in the source, one constructor per call site.
    [SendNil], [ReceiveNil], [CloseNil] are the checks at function entry;
    [SendNilConv], [ReceiveNilConv], [CloseNilConv] the checks on the
    converted channel inside the closure. *)
Inductive site :=
  | DerefNil | DerefPanic
  | SendNil | SendPanic | SendNilConv
  | ReceiveNil | ReceivePanic | ReceiveNilConv | ReceiveClosed
  | CloseNil | ClosePanic | CloseNilConv.

#[export] Instance site_eq_dec : EqDecision site.
Proof. solve_decision. Defined.

(** The two revisions of the source differ in their message formats only. *)
Inductive style := Plain | Bracketed.

Definition format (st : style) (s : site) : string :=
  match st, s with
  | Plain, DerefNil => "Deref on nil pointer: %v %v"
  | Plain, DerefPanic => "Deref panic: %v %v %v"
  | Plain, (SendNil | SendNilConv) => "Send on nil channel: %v %v"
  | Plain, SendPanic => "Send panic: %v %v %v"
  | Plain, (ReceiveNil | ReceiveNilConv) => "Receive on nil channel: %v %v"
  | Plain, ReceivePanic => "Receive panic: %v %v %v"
  | Plain, ReceiveClosed => "Receive on closed channel: %v %v"
  | Plain, (CloseNil | CloseNilConv) => "Close on nil channel: %v"
  | Plain, ClosePanic => "Close panic: %v %v"
  | Bracketed, DerefNil => "[dereference on nil pointer] %v %v"
  | Bracketed, DerefPanic => "[dereference panic] %v %v %v"
  | Bracketed, (SendNil | SendNilConv) =>
      "[send on nil channel] channel(%v) value(%v)"
  | Bracketed, SendPanic => "[channel send panic] %v channel(%v) value(%v)"
  | Bracketed, (ReceiveNil | ReceiveNilConv) =>
      "[receive on nil channel] channel(%v) result(%v)"
  | Bracketed, ReceivePanic =>
      "[channel receive panic] %v channel(%v) result(%v)"
  | Bracketed, ReceiveClosed =>
      "[receive on closed channel] channel(%v) result(%v)"
  | Bracketed, (CloseNil | CloseNilConv) => "[close on nil channel] channel(%v)"
  | Bracketed, ClosePanic => "[channel close panic] %v channel(%v)"
  end.

(** Number of [%v] verbs of a format string. *)
Fixpoint verbs (s : string) : nat :=
  match s with
  | String "%"%char (String "v"%char s') => S (verbs s')
  | String _ s' => verbs s'
  | EmptyString => 0
  end.

(** The failure kinds of the specification. The source has no such type: an
    error is told from another by its message, that is by its call site. *)
Inductive kind := NilChannel | ClosedChannel | NilReference | OperationFault.

#[export] Instance kind_eq_dec : EqDecision kind.
Proof. solve_decision. Defined.

Definition kind_of (s : site) : kind :=
  match s with
  | DerefNil => NilReference
  | SendNil | SendNilConv | ReceiveNil | ReceiveNilConv
  | CloseNil | CloseNilConv => NilChannel
  | ReceiveClosed => ClosedChannel
  | DerefPanic | SendPanic | ReceivePanic | ClosePanic => OperationFault
  end.

Section Errors.
Context {T : Type}.

(** An operand of [fmt.Errorf]. *)
Inductive arg :=
  | APanic (r : panic_value)
  | AChan (c : chan)
  | APtr (p : ptr)
  | AVal (v : T).

(** An error value: the call site that built it and its operands. *)
Record error := Errorf { err_site : site; err_args : list arg }.

Definition err_kind (e : error) : kind := kind_of (err_site e).

(** The error has one operand per verb of its format, in either style. *)
Definition well_formed (e : error) : Prop :=
  ∀ st, verbs (format st (err_site e)) = length (err_args e).
End Errors.

Global Arguments arg : clear implicits.
Global Arguments error : clear implicits.

(** ** Computations that return, panic or block *)

(** The result of running Go code from a state [S]: it returns a value, it
    panics with a value (the state reached so far is kept, since a deferred
    function still runs), or it blocks: the goroutine is parked and its run
    goes no further (whether another goroutine wakes it later is not part of
    the run of this one). *)
Inductive outcome (S A : Type) :=
  | Returned (a : A) (s : S)
  | Panicked (r : panic_value) (s : S)
  | Blocked.

Global Arguments Returned {S A} a s.
Global Arguments Panicked {S A} r s.
Global Arguments Blocked {S A}.

Definition exec (S A : Type) : Type := S → outcome S A.

#[export] Instance exec_ret {S} : MRet (exec S) := λ A a s, Returned a s.

#[export] Instance exec_bind {S} : MBind (exec S) := λ A B k m s,
  match m s with
  | Returned a s' => k a s'
  | Panicked r s' => Panicked r s'
  | Blocked => Blocked
  end.

Section Closures.
Context {L S : Type}.

(** A closure runs on the variables [L] it captures and on the state of
    its caller. *)

(** Read the captured variables. *)
Definition get_vars : exec (L * S) L := λ '(l, s), Returned l (l, s).

(** Assign captured variables. *)
Definition set_vars (f : L → L) : exec (L * S) () :=
  λ '(l, s), Returned () (f l, s).

(** Run a primitive of the host inside the closure. *)
Definition prim {A} (m : exec S A) : exec (L * S) A := λ '(l, s),
  match m s with
  | Returned a s' => Returned a (l, s')
  | Panicked r s' => Panicked r (l, s')
  | Blocked => Blocked
  end.

(** [defer func() { if r := recover(); r != nil { handler r } }()]
    followed by [body]: the deferred function runs when [body] returns
    ([recover()] is then [nil]) and when it panics ([recover()] is the
    panic value, and the panic stops there). *)
Definition defer_recover (handler : panic_value → exec (L * S) ())
    (body : exec (L * S) ()) : exec (L * S) () := λ ls,
  match body ls with
  | Returned () ls' => Returned () ls'
  | Panicked r ls' => handler r ls'
  | Blocked => Blocked
  end.

(** [(func() { body })()] where the function literal captures variables
    whose values are [l] at the call; the values they have when the call
    returns are handed back. A panic that [body] does not recover
    unwinds into the caller. *)
Definition call_closure (l : L) (body : exec (L * S) ()) : exec S L := λ s,
  match body (l, s) with
  | Returned () (l', s') => Returned l' s'
  | Panicked r (_, s') => Panicked r s'
  | Blocked => Blocked
  end.
End Closures.

(** ** The guarded primitives *)

(** The host's channel operations on values of type [chan T]:
    [c <- v], [v, ok = <-c] and [close(c)]. *)
Class ChanRuntime (S T : Type) := {
  chansend : chan → T → exec S ();
  chanrecv : chan → exec S (T * bool);
  closechan : chan → exec S ();
}.

(** The host's pointer load [*ptr]. *)
Class MemRuntime (S T : Type) := load : ptr → exec S T.

(** ** The four operations of [chans.go] *)

Section Deref.
Context {S T : Type} `{!Zero T, !MemRuntime S T}.

(** [func Deref[T any](ptr *T) (T, error)]; the closure captures [x] and
    [err]. *)
Definition Deref (p : ptr) : exec S (T * option (error T)) :=
  let x : T := zero in
  let err : option (error T) := None in
  if ptr_is_nil p then
    mret (x, Some (Errorf DerefNil [APtr p; AVal x]))
  else
    '(x, err) ← call_closure (x, err)
      (defer_recover
         (λ r, set_vars (λ '(x, _),
            (x, Some (Errorf DerefPanic [APanic r; APtr p; AVal x]))))
         (v ← prim (load p);
          set_vars (λ '(_, err), (v, err))));
    mret (x, err).
End Deref.

Section Channels.
Context {S T C : Type} `{!Zero T, !ChanRuntime S T, !ChanLike C}.

(** [func Send[T any, C ~chan T](ch C, value T) error]; the closure
    captures [err]. *)
Definition Send (ch : C) (value : T) : exec S (option (error T)) :=
  if is_nil ch then
    mret (Some (Errorf SendNil [AChan (as_chan ch); AVal value]))
  else
    let err : option (error T) := None in
    err ← call_closure err
      (defer_recover
         (λ r, set_vars (λ _, Some (Errorf SendPanic
                               [APanic r; AChan (as_chan ch); AVal value])))
         (let c := as_chan ch in
          if chan_is_nil c then
            set_vars (λ _, Some (Errorf SendNilConv
                                   [AChan (as_chan ch); AVal value]))
          else
            prim (chansend c value)));
    mret err.

(** The variables captured by the closure of [Receive]. *)
Record receive_vars := ReceiveVars {
  rv_result : T;
  rv_ok : bool;
  rv_err : option (error T);
}.

(** [func Receive[T any, C ~chan T](ch C) (T, error)]. *)
Definition Receive (ch : C) : exec S (T * option (error T)) :=
  let result : T := zero in
  let ok := true in
  if is_nil ch then
    mret (result, Some (Errorf ReceiveNil [AChan (as_chan ch); AVal result]))
  else
    let err : option (error T) := None in
    vars ← call_closure (ReceiveVars result ok err)
      (defer_recover
         (λ r, set_vars (λ vars,
            ReceiveVars (rv_result vars) (rv_ok vars)
              (Some (Errorf ReceivePanic
                 [APanic r; AChan (as_chan ch); AVal (rv_result vars)]))))
         (let c := as_chan ch in
          if chan_is_nil c then
            set_vars (λ vars,
              ReceiveVars (rv_result vars) (rv_ok vars)
                (Some (Errorf ReceiveNilConv
                   [AChan (as_chan ch); AVal (rv_result vars)])))
          else
            '(v, b) ← prim (chanrecv c);
            set_vars (λ vars, ReceiveVars v b (rv_err vars));;
            vars ← get_vars;
            if negb (rv_ok vars) then
              set_vars (λ vars,
                ReceiveVars (rv_result vars) (rv_ok vars)
                  (Some (Errorf ReceiveClosed
                     [AChan (as_chan ch); AVal (rv_result vars)])))
            else mret ()));
    mret (rv_result vars, rv_err vars).

(** [func Close[T any, C ~chan T](ch C) error]; the closure captures
    [err]. *)
Definition Close (ch : C) : exec S (option (error T)) :=
  if is_nil ch then
    mret (Some (Errorf CloseNil [AChan (as_chan ch)]))
  else
    let err : option (error T) := None in
    err ← call_closure err
      (defer_recover
         (λ r, set_vars (λ _, Some (Errorf ClosePanic
                               [APanic r; AChan (as_chan ch)])))
         (let c := as_chan ch in
          if chan_is_nil c then
            set_vars (λ _, Some (Errorf CloseNilConv [AChan (as_chan ch)]))
          else
            prim (closechan c)));
    mret err.
End Channels.

(** ** The Go runtime *)

(** What the unguarded operations do, as the README of the repository
    tabulates it ("Default Channel Behaviors") and the Go language
    specification defines it, on channels taken in isolation: the state of a
    channel is its buffer and its closed flag, and no other goroutine is
    parked on it. The runtime with parked goroutines, where a send hands its
    value to a waiting receiver and a receive takes the value of a waiting
    sender, is [go_parked_runtime] below; the two agree when nobody is
    parked.

    - [close]: panics on a nil and on a closed channel, closes an open one;
    - send: blocks forever on a nil channel, panics on a closed one, and on
      an open one succeeds when the buffer has room and blocks otherwise;
    - receive: blocks forever on a nil channel; takes the oldest buffered
      value when there is one (closed or not); on an empty buffer returns
      the zero value and [false] when closed, and blocks when open. *)

Section GoRuntime.
Context {T : Type} `{!Zero T}.

(** A channel object: its queue of buffered values, oldest first, the
    capacity given to [make], and the closed flag. *)
Record hchan := Hchan {
  buf : list T;
  dataqsiz : nat;
  closed : bool;
}.

(** The text of the run-time error of a nil dereference, as [%v] prints
    the recovered value. The panics of the channel operations print without
    the prefix. *)
Definition nil_deref : panic_value :=
  "runtime error: invalid memory address or nil pointer dereference".

Definition go_closechan (c : chan) : exec (gmap addr hchan) () := λ h,
  match c with
  | None => Panicked "close of nil channel" h
  | Some a =>
      match h !! a with
      | None => Panicked nil_deref h
      | Some q =>
          if closed q then Panicked "close of closed channel" h
          else Returned () (<[a := Hchan (buf q) (dataqsiz q) true]> h)
      end
  end.

(** [c <- v] on a channel on which no receiver is parked: the value is
    buffered if there is room, and the sender parks otherwise. (With a
    receiver parked, the send hands it the value and returns:
    [go_chansend_parked].) An address with no channel object does not occur
    without [unsafe]; it is given the fault of the nil page. *)
Definition go_chansend (c : chan) (v : T) : exec (gmap addr hchan) () := λ h,
  match c with
  | None => Blocked
  | Some a =>
      match h !! a with
      | None => Panicked nil_deref h
      | Some q =>
          if closed q then Panicked "send on closed channel" h
          else if decide (length (buf q) < dataqsiz q) then
            Returned () (<[a := Hchan (buf q ++ [v]) (dataqsiz q) false]> h)
          else Blocked
      end
  end.

(** [v, ok = <-c] on a channel on which no sender is parked: the oldest
    buffered value if there is one; on an empty buffer, the zero value and
    [false] if the channel is closed, and the receiver parks otherwise.
    (With a sender parked, the receive takes its value and returns:
    [go_chanrecv_parked].) *)
Definition go_chanrecv (c : chan) : exec (gmap addr hchan) (T * bool) := λ h,
  match c with
  | None => Blocked
  | Some a =>
      match h !! a with
      | None => Panicked nil_deref h
      | Some q =>
          match buf q with
          | v :: vs =>
              Returned (v, true) (<[a := Hchan vs (dataqsiz q) (closed q)]> h)
          | [] => if closed q then Returned (zero, false) h else Blocked
          end
      end
  end.

#[export] Instance go_chan_runtime : ChanRuntime (gmap addr hchan) T := {|
  chansend := go_chansend;
  chanrecv := go_chanrecv;
  closechan := go_closechan;
|}.

(** [*ptr] on a memory of values of type [T]. In a Go program that does not
    use [unsafe] a non-nil pointer always designates an object, so the load
    returns; the case of an address with no object is there to make the load
    total, and is given the fault of the nil page. *)
Definition go_load (p : ptr) : exec (gmap addr T) T := λ m,
  match p with
  | None => Panicked nil_deref m
  | Some a =>
      match m !! a with
      | None => Panicked nil_deref m
      | Some v => Returned v m
      end
  end.

#[export] Instance go_mem_runtime : MemRuntime (gmap addr T) T := go_load.

(** [make(chan T, n)]: a new open channel at an unused address. *)
Definition makechan (n : nat) : exec (gmap addr hchan) chan := λ h,
  let a := fresh (dom h) in
  Returned (Some a) (<[a := Hchan [] n false]> h).
End GoRuntime.

Global Arguments hchan : clear implicits.

Abbreviation heap T := (gmap addr (hchan T)).
Abbreviation memory T := (gmap addr T).

(** The lifecycle state of the channel a handle denotes. *)
Inductive lifecycle := Absent | Open | Closed.

#[export] Instance lifecycle_eq_dec : EqDecision lifecycle.
Proof. solve_decision. Defined.

Definition state_of {T} (h : heap T) (c : chan) : lifecycle :=
  match c with
  | None => Absent
  | Some a =>
      match h !! a with
      | None => Absent
      | Some q => if closed q then Closed else Open
      end
  end.

(** ** The demonstration in [main] *)

(** [main] of the source, returning what it prints: the error of [Send], the
    value and error of [Receive], both on a channel of [int] closed right
    after [make], and the error of [Close] on a nil channel. *)
Definition main : exec (heap Z) (option (error Z) * (Z * option (error Z)) * option (error Z)) :=
  ch ← makechan 0;
  closechan ch;;
  e1 ← Send ch 42%Z;
  '(value, e2) ← Receive ch;
  let cc : chan := None in
  e3 ← Close cc;
  mret (e1, (value, e2), e3).

(** ** Sequences of guarded operations on channels *)

Section Traces.
Context {T C : Type} `{!Zero T, !ChanLike C}.

(** A guarded call and what it returned. *)
Inductive op :=
  | OpClose (ch : C)
  | OpSend (ch : C) (value : T)
  | OpReceive (ch : C).

Inductive result :=
  | RClose (err : option (error T))
  | RSend (err : option (error T))
  | RReceive (value : T) (err : option (error T)).

Definition run_op (o : op) : exec (heap T) result :=
  match o with
  | OpClose ch => err ← Close ch; mret (RClose err)
  | OpSend ch value => err ← Send ch value; mret (RSend err)
  | OpReceive ch => '(value, err) ← Receive ch; mret (RReceive value err)
  end.

(** The calls of one goroutine, one after the other. *)
Fixpoint run_ops (os : list op) : exec (heap T) (list result) :=
  match os with
  | [] => mret []
  | o :: os' => r ← run_op o; rs ← run_ops os'; mret (r :: rs)
  end.

(** [Close] calls on the channel [c] that returned a nil error: the
    transitions of [c] to closed along a run. *)
Definition closes_of (c : chan) (o : op) (r : result) : bool :=
  match o, r with
  | OpClose ch, RClose None => bool_decide (as_chan ch = c)
  | _, _ => false
  end.

Fixpoint successful_closes (c : chan) (os : list op) (rs : list result) : nat :=
  match os, rs with
  | o :: os', r :: rs' =>
      (if closes_of c o r then 1 else 0) + successful_closes c os' rs'
  | _, _ => 0
  end.
End Traces.

Global Arguments op : clear implicits.
Global Arguments result : clear implicits.

(** [Closed] is final, [Open] may only become [Closed], and [Absent] stays
    [Absent]. *)
Definition lifecycle_le (x y : lifecycle) : bool :=
  match x, y with
  | Absent, Absent | Open, Open | Open, Closed | Closed, Closed => true
  | _, _ => false
  end.

(** ** Accounting for the values that go through a channel *)

Section Accounting.
Context {T C : Type} `{!Zero T, !ChanLike C}.

(** The channel a call is made on, as a [chan T]. *)
Definition op_chan (o : op T C) : chan :=
  match o with
  | OpClose ch | OpSend ch _ | OpReceive ch => as_chan ch
  end.

(** The error a call returned. *)
Definition result_err (r : result T) : option (error T) :=
  match r with
  | RClose err | RSend err | RReceive _ err => err
  end.

(** The value a call put on the channel [c]: that of a [Send] on [c] which
    returned a nil error. *)
Definition sent_by (c : chan) (o : op T C) (r : result T) : list T :=
  match o, r with
  | OpSend ch value, RSend None =>
      if bool_decide (as_chan ch = c) then [value] else []
  | _, _ => []
  end.

(** The value a call took from the channel [c]: that of a [Receive] on [c]
    which returned a nil error. *)
Definition received_by (c : chan) (o : op T C) (r : result T) : list T :=
  match o, r with
  | OpReceive ch, RReceive value None =>
      if bool_decide (as_chan ch = c) then [value] else []
  | _, _ => []
  end.

(** The values sent to [c] and received from [c] along a run, in order. *)
Fixpoint sent_to (c : chan) (os : list (op T C)) (rs : list (result T))
    : list T :=
  match os, rs with
  | o :: os', r :: rs' => sent_by c o r ++ sent_to c os' rs'
  | _, _ => []
  end.

Fixpoint received_from (c : chan) (os : list (op T C)) (rs : list (result T))
    : list T :=
  match os, rs with
  | o :: os', r :: rs' => received_by c o r ++ received_from c os' rs'
  | _, _ => []
  end.

(** What a returned call can have done to the heap: nothing, when it
    returned an error; otherwise closed an open channel, appended a value to
    the buffer of an open channel with room, or taken the oldest value of a
    buffer. *)
Inductive op_effect (h : heap T) : op T C → result T → heap T → Prop :=
  | effect_error o r :
      is_Some (result_err r) →
      op_effect h o r h
  | effect_close ch a q :
      as_chan ch = Some a → h !! a = Some q → closed q = false →
      op_effect h (OpClose ch) (RClose None)
        (<[a := Hchan (buf q) (dataqsiz q) true]> h)
  | effect_send ch value a q :
      as_chan ch = Some a → h !! a = Some q → closed q = false →
      length (buf q) < dataqsiz q →
      op_effect h (OpSend ch value) (RSend None)
        (<[a := Hchan (buf q ++ [value]) (dataqsiz q) false]> h)
  | effect_receive ch a q v vs :
      as_chan ch = Some a → h !! a = Some q → buf q = v :: vs →
      op_effect h (OpReceive ch) (RReceive v None)
        (<[a := Hchan vs (dataqsiz q) (closed q)]> h).
End Accounting.

(** ** The demonstration in [main], with its output *)

(** The lines [main] can print. *)
Inductive line :=
  | SendFailed (err : error Z)
  | ValueSent
  | ReceiveFailed (err : error Z)
  | ValueReceived (value : Z)
  | CloseFailed (err : error Z)
  | ChannelClosed.

(** [main] of the source with its three [if]/[else] and what each branch
    prints. *)
Definition main_stdout : exec (heap Z) (list line) :=
  ch ← makechan 0;
  closechan ch;;
  err ← Send ch 42%Z;
  let out1 :=
    match err with Some e => [SendFailed e] | None => [ValueSent] end in
  '(value, err) ← Receive ch;
  let out2 :=
    match err with
    | Some e => [ReceiveFailed e]
    | None => [ValueReceived value]
    end in
  let cc : chan := None in
  err ← Close cc;
  let out3 :=
    match err with Some e => [CloseFailed e] | None => [ChannelClosed] end in
  mret (out1 ++ out2 ++ out3).

(** ** Other goroutines *)

Section OtherGoroutines.
Context {T : Type} `{!Zero T}.

(** The Go runtime when other goroutines run between the moment a guard is
    called and the moment its primitive takes the channel: [env] is what
    they do to the heap in the meantime (close the channel, send, receive).
    The guard has then made its entry check on the heap of the call, and
    the primitive acts on the heap the others have left. *)
Definition interfered (env : gmap addr (hchan T) → gmap addr (hchan T))
    : ChanRuntime (gmap addr (hchan T)) T := {|
  chansend c v := λ h, go_chansend c v (env h);
  chanrecv c := λ h, go_chanrecv c (env h);
  closechan c := λ h, go_closechan c (env h);
|}.

(** Another goroutine closing the channel [c]: [close(c)] run there, and
    nothing if that [close] panics. *)
Definition closed_by_another (c : chan)
    (h : gmap addr (hchan T)) : gmap addr (hchan T) :=
  match go_closechan c h with
  | Returned () h' => h'
  | _ => h
  end.

(** A channel object together with the goroutines parked on it: how many
    receivers wait for a value, and the values of the senders that wait,
    oldest first. *)
Record wchan := Wchan {
  chan_of : hchan T;
  recvq : nat;
  sendq : list T;
}.

(** Send: on an open channel a parked receiver is served first (the value
    goes to it, not to the buffer); otherwise the value is buffered if there
    is room; otherwise the sender parks. *)
Definition go_chansend_parked (c : chan) (v : T)
    : exec (gmap addr wchan) () := λ h,
  match c with
  | None => Blocked
  | Some a =>
      match h !! a with
      | None => Panicked nil_deref h
      | Some w =>
          let q := chan_of w in
          if closed q then Panicked "send on closed channel" h
          else
            match recvq w with
            | S n => Returned () (<[a := Wchan q n (sendq w)]> h)
            | O =>
                if decide (length (buf q) < dataqsiz q) then
                  Returned () (<[a := Wchan (Hchan (buf q ++ [v]) (dataqsiz q)
                                                false) 0 (sendq w)]> h)
                else Blocked
            end
      end
  end.

(** Receive: a closed channel gives its buffered values, then the zero value
    and [false]. On an open channel a parked sender is served first: with an
    empty buffer its value is received directly; otherwise the oldest
    buffered value is received and the sender's value takes the place freed
    at the end of the buffer. With no parked sender the oldest buffered
    value is received, and the receiver parks when there is none. *)
Definition go_chanrecv_parked (c : chan)
    : exec (gmap addr wchan) (T * bool) := λ h,
  match c with
  | None => Blocked
  | Some a =>
      match h !! a with
      | None => Panicked nil_deref h
      | Some w =>
          let q := chan_of w in
          if closed q then
            match buf q with
            | [] => Returned (zero, false) h
            | v :: vs =>
                Returned (v, true)
                  (<[a := Wchan (Hchan vs (dataqsiz q) (closed q)) (recvq w)
                             (sendq w)]> h)
            end
          else
            match sendq w with
            | sv :: svs =>
                match buf q with
                | [] => Returned (sv, true) (<[a := Wchan q (recvq w) svs]> h)
                | v :: vs =>
                    Returned (v, true)
                      (<[a := Wchan (Hchan (vs ++ [sv]) (dataqsiz q) false)
                                 (recvq w) svs]> h)
                end
            | [] =>
                match buf q with
                | v :: vs =>
                    Returned (v, true)
                      (<[a := Wchan (Hchan vs (dataqsiz q) (closed q))
                                 (recvq w) (sendq w)]> h)
                | [] => Blocked
                end
            end
      end
  end.

(** Close: panics on a nil and on a closed channel; closes an open one and
    releases every goroutine parked on it (the receivers resume with the
    zero value, the senders panic, each in its own goroutine). *)
Definition go_closechan_parked (c : chan) : exec (gmap addr wchan) () := λ h,
  match c with
  | None => Panicked "close of nil channel" h
  | Some a =>
      match h !! a with
      | None => Panicked nil_deref h
      | Some w =>
          let q := chan_of w in
          if closed q then Panicked "close of closed channel" h
          else
            Returned ()
              (<[a := Wchan (Hchan (buf q) (dataqsiz q) true) 0 []]> h)
      end
  end.

#[export] Instance go_parked_runtime : ChanRuntime (gmap addr wchan) T := {|
  chansend := go_chansend_parked;
  chanrecv := go_chanrecv_parked;
  closechan := go_closechan_parked;
|}.

End OtherGoroutines.

Global Arguments wchan : clear implicits.


(** ** Properties of the guards over any host *)

(** Unfolds the monad and the closure combinators. *)
Ltac exec_unfold :=
  unfold mbind, mret, exec_bind, exec_ret, call_closure, defer_recover, prim,
    set_vars, get_vars in *.

Section AnyChanRuntime.
Context {S T C : Type} `{!Zero T, !ChanRuntime S T, !ChanLike C}.
Implicit Types (ch : C) (value : T) (s : S).

Lemma Send_nil ch value s :
  is_nil ch = true →
  Send ch value s
  = Returned (Some (Errorf SendNil [AChan (as_chan ch); AVal value])) s.
Proof. intros Hnil. unfold Send. by rewrite Hnil. Qed.

(** Past the nil check, [Send] is the primitive with its panic turned
    into an error. *)
Lemma Send_non_nil ch value s :
  is_nil ch = false →
  Send ch value s =
    match chansend (as_chan ch) value s with
    | Returned () s' => Returned None s'
    | Panicked r s' =>
        Returned (Some (Errorf SendPanic
                          [APanic r; AChan (as_chan ch); AVal value])) s'
    | Blocked => Blocked
    end.
Proof.
  intros Hnil. unfold Send. rewrite Hnil.
  unfold is_nil in Hnil. rewrite Hnil. exec_unfold.
  by destruct (chansend _ _ _) as [[] ?| |].
Qed.

Lemma Receive_nil ch s :
  is_nil ch = true →
  Receive ch s
  = Returned (zero, Some (Errorf ReceiveNil [AChan (as_chan ch); AVal zero])) s.
Proof. intros Hnil. unfold Receive. by rewrite Hnil. Qed.

Lemma Receive_non_nil ch s :
  is_nil ch = false →
  Receive ch s =
    match chanrecv (as_chan ch) s with
    | Returned (v, true) s' => Returned (v, None) s'
    | Returned (v, false) s' =>
        Returned (v, Some (Errorf ReceiveClosed
                             [AChan (as_chan ch); AVal v])) s'
    | Panicked r s' =>
        Returned (zero, Some (Errorf ReceivePanic
                          [APanic r; AChan (as_chan ch); AVal zero])) s'
    | Blocked => Blocked
    end.
Proof.
  intros Hnil. unfold Receive. rewrite Hnil.
  unfold is_nil in Hnil. rewrite Hnil. exec_unfold.
  by destruct (chanrecv _ _) as [[? []] ?| |].
Qed.

Lemma Close_nil ch s :
  is_nil ch = true →
  Close ch s = Returned (Some (Errorf CloseNil [AChan (as_chan ch)])) s.
Proof. intros Hnil. unfold Close. by rewrite Hnil. Qed.

Lemma Close_non_nil ch s :
  is_nil ch = false →
  Close ch s =
    match closechan (as_chan ch) s with
    | Returned () s' => Returned None s'
    | Panicked r s' =>
        Returned (Some (Errorf ClosePanic [APanic r; AChan (as_chan ch)])) s'
    | Blocked => Blocked
    end.
Proof.
  intros Hnil. unfold Close. rewrite Hnil.
  unfold is_nil in Hnil. rewrite Hnil. exec_unfold.
  by destruct (closechan _ _) as [[] ?| |].
Qed.

(** The deferred [recover] stops every panic of the primitive, whatever the
    host does. *)
Lemma Send_never_panics ch value s r s' : Send ch value s ≠ Panicked r s'.
Proof.
  destruct (is_nil ch) eqn:Hnil.
  - by rewrite (Send_nil _ _ _ Hnil).
  - rewrite (Send_non_nil _ _ _ Hnil). by destruct (chansend _ _ _) as [[] ?| |].
Qed.

Lemma Receive_never_panics ch s r s' : Receive ch s ≠ Panicked r s'.
Proof.
  destruct (is_nil ch) eqn:Hnil.
  - by rewrite (Receive_nil _ _ Hnil).
  - rewrite (Receive_non_nil _ _ Hnil).
    by destruct (chanrecv _ _) as [[? []] ?| |].
Qed.

Lemma Close_never_panics ch s r s' : Close ch s ≠ Panicked r s'.
Proof.
  destruct (is_nil ch) eqn:Hnil.
  - by rewrite (Close_nil _ _ Hnil).
  - rewrite (Close_non_nil _ _ Hnil). by destruct (closechan _ _) as [[] ?| |].
Qed.
End AnyChanRuntime.

Section AnyMemRuntime.
Context {S T : Type} `{!Zero T, !MemRuntime S T}.

Lemma Deref_nil (p : ptr) (s : S) :
  ptr_is_nil p = true →
  Deref p s = Returned (zero, Some (Errorf DerefNil [APtr p; AVal zero])) s.
Proof. intros Hnil. unfold Deref. by rewrite Hnil. Qed.

Lemma Deref_non_nil (p : ptr) (s : S) :
  ptr_is_nil p = false →
  Deref p s =
    match load p s with
    | Returned v s' => Returned (v, None) s'
    | Panicked r s' =>
        Returned (zero, Some (Errorf DerefPanic
                                [APanic r; APtr p; AVal zero])) s'
    | Blocked => Blocked
    end.
Proof.
  intros Hnil. unfold Deref. rewrite Hnil. exec_unfold.
  by destruct (load _ _).
Qed.

Lemma Deref_never_panics (p : ptr) (s : S) r s' : Deref p s ≠ Panicked r s'.
Proof.
  destruct (ptr_is_nil p) eqn:Hnil.
  - by rewrite (Deref_nil _ _ Hnil).
  - rewrite (Deref_non_nil _ _ Hnil). by destruct (load _ _).
Qed.
End AnyMemRuntime.

(** ** Properties of the guards over the Go runtime *)

Section Lifecycle.
Context {T : Type}.
Implicit Types (h : heap T) (c : chan) (q : hchan T).

Lemma state_of_Closed h c :
  state_of h c = Closed ↔
  ∃ a q, c = Some a ∧ h !! a = Some q ∧ closed q = true.
Proof.
  unfold state_of. split.
  - destruct c as [a|]; [|done].
    destruct (h !! a) as [q|] eqn:Hq; [|done].
    destruct (closed q) eqn:Hc; [|done]. eauto.
  - intros (a & q & -> & -> & ->). done.
Qed.

Lemma state_of_Open h c :
  state_of h c = Open ↔
  ∃ a q, c = Some a ∧ h !! a = Some q ∧ closed q = false.
Proof.
  unfold state_of. split.
  - destruct c as [a|]; [|done].
    destruct (h !! a) as [q|] eqn:Hq; [|done].
    destruct (closed q) eqn:Hc; [done|]. eauto.
  - intros (a & q & -> & -> & ->). done.
Qed.

Lemma state_of_not_nil h c : state_of h c ≠ Absent → chan_is_nil c = false.
Proof. by destruct c. Qed.
End Lifecycle.

Section GoChannels.
Context {T C : Type} `{!Zero T, !ChanLike C}.
Implicit Types (ch : C) (value : T) (h : heap T) (a : addr) (q : hchan T).

Lemma Close_open ch h a q :
  as_chan ch = Some a → h !! a = Some q → closed q = false →
  Close ch h = Returned None (<[a := Hchan (buf q) (dataqsiz q) true]> h).
Proof.
  intros Ha Hq Hc. rewrite Close_non_nil; [|by unfold is_nil; rewrite Ha].
  simpl. unfold go_closechan. by rewrite Ha, Hq, Hc.
Qed.

Lemma Close_closed ch h a q :
  as_chan ch = Some a → h !! a = Some q → closed q = true →
  Close ch h = Returned (Some (Errorf ClosePanic
    [APanic "close of closed channel"; AChan (Some a)])) h.
Proof.
  intros Ha Hq Hc. rewrite Close_non_nil; [|by unfold is_nil; rewrite Ha].
  simpl. unfold go_closechan. by rewrite Ha, Hq, Hc.
Qed.

Lemma Close_dangling ch h a :
  as_chan ch = Some a → h !! a = None →
  Close ch h = Returned (Some (Errorf ClosePanic
    [APanic nil_deref; AChan (Some a)])) h.
Proof.
  intros Ha Hq. rewrite Close_non_nil; [|by unfold is_nil; rewrite Ha].
  simpl. unfold go_closechan. by rewrite Ha, Hq.
Qed.

Lemma Send_closed ch value h a q :
  as_chan ch = Some a → h !! a = Some q → closed q = true →
  Send ch value h = Returned (Some (Errorf SendPanic
    [APanic "send on closed channel"; AChan (Some a); AVal value])) h.
Proof.
  intros Ha Hq Hc. rewrite Send_non_nil; [|by unfold is_nil; rewrite Ha].
  simpl. unfold go_chansend. by rewrite Ha, Hq, Hc.
Qed.

Lemma Send_open_room ch value h a q :
  as_chan ch = Some a → h !! a = Some q → closed q = false →
  length (buf q) < dataqsiz q →
  Send ch value h
  = Returned None (<[a := Hchan (buf q ++ [value]) (dataqsiz q) false]> h).
Proof.
  intros Ha Hq Hc Hlen. rewrite Send_non_nil; [|by unfold is_nil; rewrite Ha].
  simpl. unfold go_chansend. rewrite Ha, Hq, Hc. by case_decide.
Qed.

Lemma Send_open_full ch value h a q :
  as_chan ch = Some a → h !! a = Some q → closed q = false →
  dataqsiz q ≤ length (buf q) →
  Send ch value h = Blocked.
Proof.
  intros Ha Hq Hc Hlen. rewrite Send_non_nil; [|by unfold is_nil; rewrite Ha].
  simpl. unfold go_chansend. rewrite Ha, Hq, Hc. case_decide; [lia|done].
Qed.

Lemma Send_dangling ch value h a :
  as_chan ch = Some a → h !! a = None →
  Send ch value h = Returned (Some (Errorf SendPanic
    [APanic nil_deref; AChan (Some a); AVal value])) h.
Proof.
  intros Ha Hq. rewrite Send_non_nil; [|by unfold is_nil; rewrite Ha].
  simpl. unfold go_chansend. by rewrite Ha, Hq.
Qed.

Lemma Receive_buffered ch h a q v vs :
  as_chan ch = Some a → h !! a = Some q → buf q = v :: vs →
  Receive ch h
  = Returned (v, None) (<[a := Hchan vs (dataqsiz q) (closed q)]> h).
Proof.
  intros Ha Hq Hb. rewrite Receive_non_nil; [|by unfold is_nil; rewrite Ha].
  simpl. unfold go_chanrecv. by rewrite Ha, Hq, Hb.
Qed.

Lemma Receive_closed_empty ch h a q :
  as_chan ch = Some a → h !! a = Some q → buf q = [] → closed q = true →
  Receive ch h = Returned (zero, Some (Errorf ReceiveClosed
    [AChan (Some a); AVal zero])) h.
Proof.
  intros Ha Hq Hb Hc. rewrite Receive_non_nil; [|by unfold is_nil; rewrite Ha].
  simpl. unfold go_chanrecv. by rewrite Ha, Hq, Hb, Hc.
Qed.

Lemma Receive_open_empty ch h a q :
  as_chan ch = Some a → h !! a = Some q → buf q = [] → closed q = false →
  Receive ch h = Blocked.
Proof.
  intros Ha Hq Hb Hc. rewrite Receive_non_nil; [|by unfold is_nil; rewrite Ha].
  simpl. unfold go_chanrecv. by rewrite Ha, Hq, Hb, Hc.
Qed.

Lemma Receive_dangling ch h a :
  as_chan ch = Some a → h !! a = None →
  Receive ch h = Returned (zero, Some (Errorf ReceivePanic
    [APanic nil_deref; AChan (Some a); AVal zero])) h.
Proof.
  intros Ha Hq. rewrite Receive_non_nil; [|by unfold is_nil; rewrite Ha].
  simpl. unfold go_chanrecv. by rewrite Ha, Hq.
Qed.
End GoChannels.

(** ** The specified properties *)

Section NilArguments.
Context {S M T C : Type}.
Context `{!Zero T, !ChanRuntime S T, !MemRuntime M T, !ChanLike C}.

(** C5. Whatever the host's primitives do, a nil channel or pointer makes
    each of the four operations return at once, in the state it was called
    in, the error built by the check at function entry ([NilChannel], or
    [NilReference] for [Deref]) and, for [Receive] and [Deref], the zero
    value. As this holds for every runtime, also one whose primitives
    panic or block on every call, no primitive is invoked and the closure
    with its deferred [recover] is not entered. *)
Theorem nil_rejected_before_primitive
    (ch : C) (p : ptr) (value : T) (s : S) (m : M) :
  is_nil ch = true → ptr_is_nil p = true →
  Close ch s = Returned (Some (Errorf CloseNil [AChan None])) s
  ∧ Send ch value s = Returned (Some (Errorf SendNil [AChan None; AVal value])) s
  ∧ Receive ch s
    = Returned (zero, Some (Errorf ReceiveNil [AChan None; AVal zero])) s
  ∧ Deref p m = Returned (zero, Some (Errorf DerefNil [APtr None; AVal zero])) m
  ∧ kind_of CloseNil = NilChannel ∧ kind_of SendNil = NilChannel
  ∧ kind_of ReceiveNil = NilChannel ∧ kind_of DerefNil = NilReference.
Proof.
  intros Hch Hp.
  rewrite (Close_nil _ _ Hch), (Send_nil _ _ _ Hch), (Receive_nil _ _ Hch).
  rewrite (Deref_nil _ _ Hp).
  unfold is_nil in Hch. destruct (as_chan ch); [done|]. by destruct p.
Qed.
End NilArguments.

Section InnerCheck.
Context {S T C : Type} `{!Zero T, !ChanRuntime S T, !ChanLike C}.

(** C9. A channel that passes the nil check at function entry converts to
    a non-nil [chan T]; hence, on every host, in every state and for every
    argument, no error returned by [Send], [Receive] or [Close] comes from
    the nil check inside the closure. *)
Theorem inner_nil_check_unreachable (ch : C) (value : T) (s : S) :
  (is_nil ch = false → chan_is_nil (as_chan ch) = false)
  ∧ (∀ e s', Send ch value s = Returned (Some e) s' → err_site e ≠ SendNilConv)
  ∧ (∀ x e s',
       Receive ch s = Returned (x, Some e) s' → err_site e ≠ ReceiveNilConv)
  ∧ (∀ e s', Close ch s = Returned (Some e) s' → err_site e ≠ CloseNilConv).
Proof.
  split; [done|]. destruct (is_nil ch) eqn:Hnil.
  - rewrite (Send_nil _ _ _ Hnil), (Receive_nil _ _ Hnil), (Close_nil _ _ Hnil).
    repeat split; intros; by simplify_eq.
  - rewrite (Send_non_nil _ _ _ Hnil), (Receive_non_nil _ _ Hnil),
      (Close_non_nil _ _ Hnil).
    repeat split.
    + intros e s'. destruct (chansend _ _ _) as [[] ?| |]; intros; by simplify_eq.
    + intros x e s'.
      destruct (chanrecv _ _) as [[? []] ?| |]; intros; by simplify_eq.
    + intros e s'. destruct (closechan _ _) as [[] ?| |]; intros; by simplify_eq.
Qed.
End InnerCheck.

Section GoProperties.
Context {T C : Type} `{!Zero T, !ChanLike C}.
Implicit Types (ch : C) (value : T) (h : heap T) (m : memory T).

(** C2. On a non-nil channel that is closed and whose buffer is empty,
    [Receive] returns, hence does not block, with the zero value of [T]
    and the error of the closed-channel branch, of kind [ClosedChannel]
    and not [OperationFault]; the channel is left as it was. *)
Theorem Receive_closed_drained ch h a q :
  as_chan ch = Some a → h !! a = Some q → closed q = true → buf q = [] →
  ∃ e, Receive ch h = Returned (zero, Some e) h
       ∧ e = Errorf ReceiveClosed [AChan (Some a); AVal zero]
       ∧ err_kind e = ClosedChannel ∧ err_kind e ≠ OperationFault.
Proof.
  intros Ha Hq Hc Hb. eexists. split; [by eapply Receive_closed_empty|done].
Qed.

(** C3. [Send] on a non-nil channel that is closed when the send takes
    place, whether it was closed at the call or other goroutines closed it
    after the entry check ([env] is what they did to the heap since the
    call), returns the error built from the recovered panic of the send, of
    kind [OperationFault]. The state it returns in is the one the others
    left: [Send] changed nothing, so the value was not delivered; it appears
    only as the last operand of the error. The error is the intercepted
    fault and nothing else: on every runtime, [Send] on this channel returns
    an [OperationFault] error exactly when the send panicked, and the error
    then carries the recovered value. *)
Theorem Send_on_closed ch value (env : heap T → heap T) h a q :
  as_chan ch = Some a → env h !! a = Some q → closed q = true →
  (∃ e, @Send _ T C (interfered env) _ ch value h = Returned (Some e) (env h)
        ∧ e = Errorf SendPanic
                [APanic "send on closed channel"; AChan (Some a); AVal value]
        ∧ err_kind e = OperationFault)
  ∧ @chansend _ T (interfered env) (Some a) value h
    = Panicked "send on closed channel" (env h)
  ∧ (∀ q0, h !! a = Some q0 → closed q0 = true →
       Send ch value h
       = Returned (Some (Errorf SendPanic
           [APanic "send on closed channel"; AChan (Some a); AVal value])) h)
  ∧ (∀ (S : Type) (RT : ChanRuntime S T) (s s' : S) (e : error T),
       (@Send S T C RT _ ch value s = Returned (Some e) s'
        ∧ err_kind e = OperationFault)
       ↔ ∃ r, @chansend S T RT (as_chan ch) value s = Panicked r s'
              ∧ e = Errorf SendPanic
                      [APanic r; AChan (as_chan ch); AVal value]).
Proof.
  intros Ha Hq Hc.
  assert (Hnil : is_nil ch = false) by (by unfold is_nil; rewrite Ha).
  assert (Hprim : @chansend _ T (interfered env) (Some a) value h
                  = Panicked "send on closed channel" (env h)).
  { simpl. unfold go_chansend. by rewrite Hq, Hc. }
  split; [|split; [done|split]].
  - rewrite (@Send_non_nil _ T C (interfered env) _ ch value h Hnil).
    rewrite Ha, Hprim. by eexists.
  - intros q0 Hq0 Hc0. by apply (Send_closed _ _ _ _ q0).
  - intros S RT s s' e. rewrite (@Send_non_nil S T C RT _ ch value s Hnil).
    destruct (@chansend S T RT (as_chan ch) value s) as [[] s1|r1 s1|]; split.
    + by intros [? ?].
    + by intros (r & ? & ?).
    + intros [? _]. simplify_eq. by eexists.
    + intros (r & ? & ->). by simplify_eq.
    + by intros [? ?].
    + by intros (r & ? & ?).
Qed.

(** C4. [Close] on a non-nil channel that is already closed returns the
    error built from the recovered panic, of kind [OperationFault], and
    changes nothing. Moreover [Close] returns on every channel in every
    heap, and calling it again on the same channel returns an error, of
    kind [OperationFault] when the channel is not nil. *)
Theorem Close_on_closed ch h :
  (state_of h (as_chan ch) = Closed →
   ∃ e, Close ch h = Returned (Some e) h
        ∧ err_kind e = OperationFault
        ∧ err_args e
          = [APanic "close of closed channel"; AChan (as_chan ch)])
  ∧ ∃ err1 h1, Close ch h = Returned err1 h1
      ∧ ∃ e2, Close ch h1 = Returned (Some e2) h1
          ∧ (is_nil ch = false → err_kind e2 = OperationFault).
Proof.
  split.
  - intros (a & q & Ha & Hq & Hc)%state_of_Closed.
    rewrite (Close_closed _ _ _ _ Ha Hq Hc), Ha. by eexists.
  - destruct (is_nil ch) eqn:Hnil.
    { rewrite (Close_nil _ _ Hnil). do 2 eexists. split; [done|].
      rewrite (Close_nil _ _ Hnil). by eexists. }
    unfold is_nil in Hnil. destruct (as_chan ch) as [a|] eqn:Ha; [|done].
    destruct (h !! a) as [q|] eqn:Hq.
    + destruct (closed q) eqn:Hc.
      * rewrite (Close_closed _ _ _ _ Ha Hq Hc). do 2 eexists. split; [done|].
        rewrite (Close_closed _ _ _ _ Ha Hq Hc). by eexists.
      * rewrite (Close_open _ _ _ _ Ha Hq Hc). do 2 eexists. split; [done|].
        erewrite Close_closed; [|done|apply lookup_insert_eq|done]. by eexists.
    + rewrite (Close_dangling _ _ _ Ha Hq). do 2 eexists. split; [done|].
      rewrite (Close_dangling _ _ _ Ha Hq). by eexists.
Qed.

(** C6. [Deref] of a non-nil pointer returns the value it points to and no
    error; [Deref] of a nil pointer returns the zero value of [T] and an
    error of kind [NilReference]. Memory is not changed. *)
Theorem Deref_valid_or_nil (p : ptr) m :
  (∀ a v, p = Some a → m !! a = Some v → Deref p m = Returned (v, None) m)
  ∧ (p = None →
     ∃ e, Deref p m = Returned (zero, Some e) m ∧ err_kind e = NilReference).
Proof.
  split.
  - intros a v -> Hv. rewrite Deref_non_nil; [|done].
    unfold load, go_mem_runtime, go_load. by rewrite Hv.
  - intros ->. rewrite Deref_nil; [|done]. by eexists.
Qed.

(** C10. Whenever [Receive] returns an error, the value returned with it
    is the zero value of [T]; so a value other than zero is returned with
    a nil error only. *)
Theorem Receive_error_zero ch h h' (x : T) (err : option (error T)) :
  Receive ch h = Returned (x, err) h' →
  (∀ e, err = Some e → x = zero) ∧ (x ≠ zero → err = None).
Proof.
  intros Hrecv. assert (Hz : ∀ e, err = Some e → x = zero).
  { intros e ->. destruct (is_nil ch) eqn:Hnil.
    - rewrite (Receive_nil _ _ Hnil) in Hrecv. by simplify_eq.
    - rewrite (Receive_non_nil _ _ Hnil) in Hrecv. simpl in Hrecv.
      unfold go_chanrecv in Hrecv.
      destruct (as_chan ch) as [a|]; [|done].
      destruct (h !! a) as [q|]; [|by simplify_eq].
      destruct (buf q); [|by simplify_eq].
      destruct (closed q); by simplify_eq. }
  split; [done|]. intros Hx. destruct err as [e|]; [|done].
  destruct Hx. eauto.
Qed.
End GoProperties.

Section GoLifecycle.
Context {T C : Type} `{!Zero T, !ChanLike C}.
Implicit Types (ch : C) (c : chan) (h : heap T) (a : addr) (q : hchan T).

Lemma state_of_insert h a q c :
  state_of (<[a := q]> h) c =
    if decide (c = Some a) then (if closed q then Closed else Open)
    else state_of h c.
Proof.
  unfold state_of. destruct c as [a'|]; [|by case_decide].
  case_decide; simplify_eq.
  - by rewrite lookup_insert_eq.
  - rewrite lookup_insert_ne; [done|congruence].
Qed.

Lemma lifecycle_le_refl (x : lifecycle) : lifecycle_le x x = true.
Proof. by destruct x. Qed.

(** One returned call moves a channel to closed exactly when it is a [Close]
    of that channel returning a nil error, which needs the channel open;
    otherwise the state of the channel is kept. *)
Lemma run_op_state (o : op T C) (r : result T) h h' c :
  run_op o h = Returned r h' →
  state_of h' c = (if closes_of c o r then Closed else state_of h c)
  ∧ (closes_of c o r = true → state_of h c = Open).
Proof.
  destruct o as [ch|ch value|ch]; simpl; unfold mbind, exec_bind, mret, exec_ret.
  - (* Close *)
    destruct (is_nil ch) eqn:Hnil.
    { rewrite (Close_nil _ _ Hnil). intros; by simplify_eq. }
    unfold is_nil in Hnil. destruct (as_chan ch) as [a|] eqn:Ha; [|done].
    destruct (h !! a) as [q|] eqn:Hq.
    + destruct (closed q) eqn:Hc.
      * rewrite (Close_closed _ _ _ _ Ha Hq Hc). intros; by simplify_eq.
      * rewrite (Close_open _ _ _ _ Ha Hq Hc). intros; simplify_eq. simpl.
        rewrite state_of_insert. simpl.
        case_bool_decide; case_decide; simplify_eq; try done.
        split; [done|]. intros _. apply state_of_Open; eauto.
    + rewrite (Close_dangling _ _ _ Ha Hq). intros; by simplify_eq.
  - (* Send *)
    destruct (is_nil ch) eqn:Hnil.
    { rewrite (Send_nil _ _ _ Hnil). intros; by simplify_eq. }
    unfold is_nil in Hnil. destruct (as_chan ch) as [a|] eqn:Ha; [|done].
    destruct (h !! a) as [q|] eqn:Hq.
    + destruct (closed q) eqn:Hc.
      * rewrite (Send_closed _ _ _ _ _ Ha Hq Hc). intros; by simplify_eq.
      * destruct (decide (length (buf q) < dataqsiz q)) as [Hlt|Hge].
        -- rewrite (Send_open_room _ _ _ _ _ Ha Hq Hc Hlt). intros; simplify_eq.
           simpl. rewrite state_of_insert. simpl. split; [|done].
           case_decide; [|done]. subst c. symmetry. apply state_of_Open; eauto.
        -- rewrite (Send_open_full _ _ _ _ _ Ha Hq Hc); [done|lia].
    + rewrite (Send_dangling _ _ _ _ Ha Hq). intros; by simplify_eq.
  - (* Receive *)
    destruct (is_nil ch) eqn:Hnil.
    { rewrite (Receive_nil _ _ Hnil). intros; by simplify_eq. }
    unfold is_nil in Hnil. destruct (as_chan ch) as [a|] eqn:Ha; [|done].
    destruct (h !! a) as [q|] eqn:Hq.
    + destruct (buf q) as [|v vs] eqn:Hb.
      * destruct (closed q) eqn:Hc.
        -- rewrite (Receive_closed_empty _ _ _ _ Ha Hq Hb Hc).
           intros; by simplify_eq.
        -- by rewrite (Receive_open_empty _ _ _ _ Ha Hq Hb Hc).
      * rewrite (Receive_buffered _ _ _ _ _ _ Ha Hq Hb). intros; simplify_eq.
        simpl. rewrite state_of_insert. simpl. split; [|done].
        case_decide; [|done]. subst c. unfold state_of. by rewrite Hq.
    + rewrite (Receive_dangling _ _ _ Ha Hq). intros; by simplify_eq.
Qed.

Lemma run_ops_cons (o : op T C) os h rs h' :
  run_ops (o :: os) h = Returned rs h' →
  ∃ r rs' h1, rs = r :: rs' ∧ run_op o h = Returned r h1
              ∧ run_ops os h1 = Returned rs' h'.
Proof.
  simpl. unfold mbind, exec_bind at 1.
  destruct (run_op o h) as [r h1| |]; [|done..].
  unfold mbind, exec_bind, mret, exec_ret.
  destruct (run_ops os h1) as [rs' h2| |] eqn:Hrest; [|done..].
  intros; simplify_eq. by eexists _, _, _.
Qed.

(** Along a run, a channel is closed by a [Close] once if it goes from open
    to closed, and never otherwise. *)
Lemma run_ops_state (os : list (op T C)) (rs : list (result T)) h h' c :
  run_ops os h = Returned rs h' →
  lifecycle_le (state_of h c) (state_of h' c) = true
  ∧ successful_closes c os rs =
      if decide (state_of h c = Open ∧ state_of h' c = Closed) then 1 else 0.
Proof.
  revert rs h. induction os as [|o os IH]; intros rs h Hrun.
  - simpl in Hrun. unfold mret, exec_ret in Hrun. simplify_eq.
    split; [apply lifecycle_le_refl|]. simpl.
    case_decide as Hd; [|done]. destruct Hd as [-> ?]. done.
  - apply run_ops_cons in Hrun as (r & rs' & h1 & -> & Hop & Hrun).
    apply (run_op_state _ _ _ _ c) in Hop as [Hst Hopen].
    apply IH in Hrun as [Hle Hcount]. simpl. rewrite Hcount. clear IH Hcount.
    destruct (closes_of c o r).
    + rewrite Hopen in *; [|done]. rewrite Hst in *.
      by destruct (state_of h' c).
    + rewrite Hst in *. split; [done|]. done.
Qed.
End GoLifecycle.

Section GoTotality.
Context {T C : Type} `{!Zero T, !ChanLike C}.
Implicit Types (ch : C) (value : T) (c : chan) (h : heap T) (m : memory T).

(** Closes a goal [∃ .., f .. = Returned .. ∧ from_option well_formed True ..]
    once the call has been rewritten to its result. *)
Local Ltac returned :=
  repeat (match goal with |- ex _ => eexists end);
  split; [done|]; simpl; try done; by intros [].

(** C1, as amended. On the Go runtime no panic leaves any of the four
    operations: each call returns or blocks. [Deref] and [Close] return on
    every pointer and channel. [Send] and [Receive] return on every channel
    that is nil, closed or not allocated, and on an open channel they return
    unless the unguarded send or receive itself blocks. Every error returned
    has one operand per verb of its message. *)
Theorem guards_return_or_block (p : ptr) m ch value h :
  (∃ x err, Deref p m = Returned (x, err) m
            ∧ from_option well_formed True err)
  ∧ (∃ err h', Close ch h = Returned err h'
               ∧ from_option well_formed True err)
  ∧ ((∃ err h', Send ch value h = Returned err h'
                ∧ from_option well_formed True err)
     ∨ (Send ch value h = Blocked
        ∧ chansend (as_chan ch) value h = Blocked
        ∧ state_of h (as_chan ch) = Open))
  ∧ ((∃ x err h', Receive ch h = Returned (x, err) h'
                  ∧ from_option well_formed True err)
     ∨ (Receive ch h = Blocked
        ∧ chanrecv (as_chan ch) h = Blocked
        ∧ state_of h (as_chan ch) = Open)).
Proof.
  split.
  { destruct p as [a|].
    - rewrite Deref_non_nil; [|done].
      unfold load, go_mem_runtime, go_load. destruct (m !! a); returned.
    - rewrite Deref_nil; [|done]. returned. }
  destruct (is_nil ch) eqn:Hnil.
  { rewrite (Close_nil _ _ Hnil), (Send_nil _ _ _ Hnil), (Receive_nil _ _ Hnil).
    split; [|split; left]; returned. }
  unfold is_nil in Hnil. destruct (as_chan ch) as [a|] eqn:Ha; [|done].
  destruct (h !! a) as [q|] eqn:Hq.
  2:{ rewrite (Close_dangling _ _ _ Ha Hq), (Send_dangling _ _ _ _ Ha Hq),
        (Receive_dangling _ _ _ Ha Hq).
      split; [|split; left]; returned. }
  assert (closed q = false → state_of h (Some a) = Open) as Hopen.
  { intros Hc. apply state_of_Open. eauto. }
  split; [|split].
  - destruct (closed q) eqn:Hc.
    + rewrite (Close_closed _ _ _ _ Ha Hq Hc). returned.
    + rewrite (Close_open _ _ _ _ Ha Hq Hc). returned.
  - destruct (closed q) eqn:Hc.
    + left. rewrite (Send_closed _ _ _ _ _ Ha Hq Hc). returned.
    + destruct (decide (length (buf q) < dataqsiz q)) as [Hlt|Hge].
      * left. rewrite (Send_open_room _ _ _ _ _ Ha Hq Hc Hlt). returned.
      * right. rewrite (Send_open_full _ _ _ _ _ Ha Hq Hc); [|lia].
        split; [done|]. split; [|auto].
        simpl. unfold go_chansend. rewrite Hq, Hc. by case_decide.
  - destruct (buf q) as [|v vs] eqn:Hb.
    + destruct (closed q) eqn:Hc.
      * left. rewrite (Receive_closed_empty _ _ _ _ Ha Hq Hb Hc). returned.
      * right. rewrite (Receive_open_empty _ _ _ _ Ha Hq Hb Hc).
        split; [done|]. split; [|auto].
        simpl. unfold go_chanrecv. by rewrite Hq, Hb, Hc.
    + left. rewrite (Receive_buffered _ _ _ _ _ _ Ha Hq Hb). returned.
Qed.

(** C7. Along every run of guarded calls that return, from [h] to [h'],
    every channel keeps to the order absent, open then closed: an absent
    channel stays absent, a closed channel stays closed, and the number of
    [Close] calls that succeeded on a channel is one if it went from open to
    closed and zero otherwise. In the state reached, [Close] on an open
    channel returns no error and leaves it closed; on a closed channel
    [Close] returns an [OperationFault] error and changes nothing, and
    [Receive] returns the zero value and a [ClosedChannel] error once the
    buffer is empty. *)
Theorem lifecycle_monotone
    (os : list (op T C)) (rs : list (result T)) h h' c ch :
  run_ops os h = Returned rs h' →
  lifecycle_le (state_of h c) (state_of h' c) = true
  ∧ successful_closes c os rs =
      (if decide (state_of h c = Open ∧ state_of h' c = Closed) then 1 else 0)
  ∧ (state_of h' (as_chan ch) = Open →
     ∃ h1, Close ch h' = Returned None h1
           ∧ state_of h1 (as_chan ch) = Closed)
  ∧ (state_of h' (as_chan ch) = Closed →
     (∃ e, Close ch h' = Returned (Some e) h'
           ∧ err_kind e = OperationFault)
     ∧ (∀ a q, as_chan ch = Some a → h' !! a = Some q → buf q = [] →
        ∃ e, Receive ch h' = Returned (zero, Some e) h'
             ∧ err_kind e = ClosedChannel)).
Proof.
  intros Hrun. destruct (run_ops_state _ _ _ _ c Hrun) as [Hle Hcount].
  split; [done|]. split; [done|]. split.
  - intros (a & q & Ha & Hq & Hc)%state_of_Open.
    rewrite (Close_open _ _ _ _ Ha Hq Hc). eexists. split; [done|].
    rewrite Ha, state_of_insert. by rewrite decide_True.
  - intros (a & q & Ha & Hq & Hc)%state_of_Closed. split.
    + rewrite (Close_closed _ _ _ _ Ha Hq Hc). by eexists.
    + intros a' q' Ha' Hq' Hb. rewrite Ha in Ha'. simplify_eq.
      rewrite (Receive_closed_empty _ _ _ _ Ha Hq Hb Hc). by eexists.
Qed.
End GoTotality.

(** ** Runs on channels of integers *)

(** What [main] prints: [Send] on the closed channel fails with the
    recovered panic, [Receive] gives zero and the closed-channel error,
    [Close] on the nil channel gives the nil-channel error. *)
Example main_output :
  ∃ h, main ∅ = Returned
    (Some (Errorf SendPanic
             [APanic "send on closed channel"; AChan (Some 1%positive);
              AVal 42%Z]),
     (0%Z, Some (Errorf ReceiveClosed [AChan (Some 1%positive); AVal 0%Z])),
     Some (Errorf CloseNil [AChan None])) h.
Proof. eexists. vm_compute. reflexivity. Qed.

(** The README's buffered example: a value sent before [close] is still
    received, with no error. *)
Example Receive_buffered_then_closed :
  Receive (Some 1%positive : chan)
    ({[1%positive := Hchan [42%Z] 1 true]} : heap Z)
  = Returned (42%Z, None) {[1%positive := Hchan [] 1 true]}.
Proof. vm_compute. reflexivity. Qed.

(** The README's named channel type: [var ch MyChan; Send(ch, 42)]. *)
Example Send_nil_MyChan (h : heap Z) :
  Send (mkMyChan None) 42%Z h
  = Returned (Some (Errorf SendNil [AChan None; AVal 42%Z])) h.
Proof. reflexivity. Qed.

(** A send that finds room in the buffer, then one that does not. *)
Example Send_buffered_then_full :
  let ch : chan := Some 1%positive in
  run_ops [OpSend ch 7%Z] ({[1%positive := Hchan [] 1 false]} : heap Z)
  = Returned [RSend None] {[1%positive := Hchan [7%Z] 1 false]}
  ∧ Send ch 8%Z ({[1%positive := Hchan [7%Z] 1 false]} : heap Z) = Blocked.
Proof. split; vm_compute; reflexivity. Qed.

(** C1 as stated fails: on an open channel without buffer and with no
    receiver, [Send] does not return; it blocks as the unguarded send does. *)
Lemma Send_open_unbuffered_never_returns :
  let h : heap Z := {[1%positive := Hchan [] 0 false]} in
  let ch : chan := Some 1%positive in
  state_of h ch = Open
  ∧ Send ch 42%Z h = Blocked
  ∧ ¬ ∃ err h', Send ch 42%Z h = Returned err h'.
Proof.
  intros h ch. split; [reflexivity|]. split; [vm_compute; reflexivity|].
  intros (err & h' & Hret). vm_compute in Hret. discriminate Hret.
Qed.

Lemma nil_rejected_before_primitive_witness :
  let ch : chan := None in
  let h : heap Z := {[1%positive := Hchan [] 0 false]} in
  let m : memory Z := {[1%positive := 5%Z]} in
  Close ch h = Returned (Some (Errorf CloseNil [AChan None])) h
  ∧ Send ch 42%Z h = Returned (Some (Errorf SendNil [AChan None; AVal 42%Z])) h
  ∧ Receive ch h
    = Returned (0%Z, Some (Errorf ReceiveNil [AChan None; AVal 0%Z])) h
  ∧ Deref None m = Returned (0%Z, Some (Errorf DerefNil [APtr None; AVal 0%Z])) m
  ∧ kind_of CloseNil = NilChannel ∧ kind_of SendNil = NilChannel
  ∧ kind_of ReceiveNil = NilChannel ∧ kind_of DerefNil = NilReference.
Proof.
  intros ch h m.
  apply (nil_rejected_before_primitive (S:=heap Z) (M:=memory Z) ch None 42%Z h m);
    reflexivity.
Defined.

Lemma inner_nil_check_unreachable_witness :
  let ch : chan := Some 1%positive in
  let h : heap Z := {[1%positive := Hchan [] 0 true]} in
  chan_is_nil (as_chan ch) = false
  ∧ err_site (Errorf (T:=Z) SendPanic
                [APanic "send on closed channel"; AChan ch; AVal 42%Z])
    ≠ SendNilConv.
Proof.
  intros ch h.
  destruct (inner_nil_check_unreachable (S:=heap Z) ch 42%Z h) as (Hconv & Hsend & _).
  split.
  - apply Hconv. reflexivity.
  - apply (Hsend _ h). vm_compute. reflexivity.
Defined.

Lemma Receive_closed_drained_witness :
  let ch : chan := Some 1%positive in
  let q : hchan Z := Hchan [] 0 true in
  let h : heap Z := {[1%positive := q]} in
  ∃ e, Receive ch h = Returned (0%Z, Some e) h
       ∧ e = Errorf ReceiveClosed [AChan (Some 1%positive); AVal 0%Z]
       ∧ err_kind e = ClosedChannel ∧ err_kind e ≠ OperationFault.
Proof.
  intros ch q h.
  apply (Receive_closed_drained ch h 1%positive q); reflexivity.
Defined.

Lemma Send_on_closed_witness :
  let ch : chan := Some 1%positive in
  let h : heap Z := {[1%positive := Hchan [7%Z] 2 false]} in
  let env : heap Z → heap Z := closed_by_another ch in
  state_of h ch = Open
  ∧ env h !! 1%positive = Some (Hchan [7%Z] 2 true)
  ∧ ∃ e, @Send _ Z chan (interfered env) _ ch 42%Z h
         = Returned (Some e) (env h)
         ∧ e = Errorf SendPanic
                 [APanic "send on closed channel"; AChan (Some 1%positive);
                  AVal 42%Z]
         ∧ err_kind e = OperationFault.
Proof.
  intros ch h env. split; [reflexivity|]. split; [reflexivity|].
  apply (Send_on_closed ch 42%Z env h 1%positive (Hchan [7%Z] 2 true));
    reflexivity.
Defined.

Lemma Close_on_closed_witness :
  let ch : chan := Some 1%positive in
  let h : heap Z := {[1%positive := Hchan [] 0 true]} in
  ∃ e, Close ch h = Returned (Some e) h
       ∧ err_kind e = OperationFault
       ∧ err_args e = [APanic "close of closed channel"; AChan (as_chan ch)].
Proof.
  intros ch h. apply (proj1 (Close_on_closed ch h)). reflexivity.
Defined.

Lemma Deref_valid_or_nil_witness :
  let m : memory Z := {[1%positive := 5%Z]} in
  Deref (Some 1%positive) m = Returned (5%Z, None) m
  ∧ ∃ e, Deref None m = Returned (0%Z, Some e) m ∧ err_kind e = NilReference.
Proof.
  intros m. split.
  - apply (proj1 (Deref_valid_or_nil (Some 1%positive) m) 1%positive 5%Z);
      reflexivity.
  - apply (proj2 (Deref_valid_or_nil None m)). reflexivity.
Defined.

Lemma Receive_error_zero_witness :
  (∀ e, Some (Errorf ReceiveClosed [AChan (Some 1%positive); AVal 0%Z]) = Some e →
        0%Z = zero)
  ∧ (0%Z ≠ zero →
     Some (Errorf ReceiveClosed [AChan (Some 1%positive); AVal 0%Z]) = None).
Proof.
  apply (Receive_error_zero (Some 1%positive : chan)
           ({[1%positive := Hchan [] 0 true]} : heap Z)
           {[1%positive := Hchan [] 0 true]}).
  vm_compute. reflexivity.
Defined.

Lemma lifecycle_monotone_witness :
  let ch : chan := Some 1%positive in
  let h : heap Z := {[1%positive := Hchan [] 1 false]} in
  let os := [OpSend ch 7%Z; OpClose ch; OpReceive ch; OpClose ch] in
  ∃ rs h',
    run_ops os h = Returned rs h'
    ∧ lifecycle_le (state_of h ch) (state_of h' ch) = true
    ∧ successful_closes ch os rs = 1
    ∧ state_of h' ch = Closed
    ∧ ∃ e, Receive ch h' = Returned (0%Z, Some e) h'
           ∧ err_kind e = ClosedChannel.
Proof.
  intros ch h os.
  assert (∃ rs h', run_ops os h = Returned rs h') as (rs & h' & Hrun).
  { eexists _, _. vm_compute. reflexivity. }
  exists rs, h'. split; [exact Hrun|].
  destruct (lifecycle_monotone os rs h h' ch ch Hrun)
    as (Hle & Hcount & _ & Hclosed).
  vm_compute in Hrun. injection Hrun as <- <-.
  split; [exact Hle|]. split; [exact Hcount|]. split; [reflexivity|].
  destruct (Hclosed eq_refl) as [_ Hrecv].
  apply (Hrecv 1%positive (Hchan [] 1 true)); reflexivity.
Defined.

(** ** The guards against the primitives, on every runtime *)

Set Warnings "-clear-no-such-hyp".

Section Faithful.
Context {S M T C : Type}.
Context `{!Zero T, !ChanRuntime S T, !MemRuntime M T, !ChanLike C}.
Implicit Types (ch : C) (value : T) (s : S) (m : M) (p : ptr).

(** X1. [Send] returns a nil error exactly when the channel is not nil and the
    send returned, and blocks exactly when the channel is not nil and the send
    blocks; it returns an error exactly on a nil channel (from the entry
    check, state untouched) and when the send panicked (the error carries the
    recovered value, the channel and the value to send); it never panics. *)
Theorem Send_faithful ch value s :
  (∀ s', Send ch value s = Returned None s' ↔
     is_nil ch = false ∧ chansend (as_chan ch) value s = Returned () s')
  ∧ (Send ch value s = Blocked ↔
     is_nil ch = false ∧ chansend (as_chan ch) value s = Blocked)
  ∧ (∀ e s', Send ch value s = Returned (Some e) s' ↔
     (is_nil ch = true ∧ s' = s
      ∧ e = Errorf SendNil [AChan (as_chan ch); AVal value])
     ∨ (is_nil ch = false
        ∧ ∃ r, chansend (as_chan ch) value s = Panicked r s'
               ∧ e = Errorf SendPanic
                       [APanic r; AChan (as_chan ch); AVal value]))
  ∧ (∀ r s', Send ch value s ≠ Panicked r s').
Proof.
  destruct (is_nil ch) eqn:Hnil.
  - rewrite (Send_nil _ _ _ Hnil). repeat split; try naive_solver.
  - rewrite (Send_non_nil _ _ _ Hnil).
    destruct (chansend _ _ _) as [[] s1|r1 s1|]; repeat split; naive_solver.
Qed.

(** X2. [Receive] returns a value and a nil error exactly when the channel is
    not nil and the receive returned that value with [ok] true, and blocks
    exactly when the channel is not nil and the receive blocks. Its errors:
    on a nil channel, the zero value and the entry-check error in the
    untouched state; when the receive returned with [ok] false, the value
    the receive gave and the closed-channel error; when the receive
    panicked, the zero value and the error carrying the recovered value. *)
Theorem Receive_faithful ch s :
  (∀ x s', Receive ch s = Returned (x, None) s' ↔
     is_nil ch = false ∧ chanrecv (as_chan ch) s = Returned (x, true) s')
  ∧ (Receive ch s = Blocked ↔
     is_nil ch = false ∧ chanrecv (as_chan ch) s = Blocked)
  ∧ (∀ x e s', Receive ch s = Returned (x, Some e) s' ↔
     (is_nil ch = true ∧ s' = s ∧ x = zero
      ∧ e = Errorf ReceiveNil [AChan (as_chan ch); AVal zero])
     ∨ (is_nil ch = false
        ∧ chanrecv (as_chan ch) s = Returned (x, false) s'
        ∧ e = Errorf ReceiveClosed [AChan (as_chan ch); AVal x])
     ∨ (is_nil ch = false ∧ x = zero
        ∧ ∃ r, chanrecv (as_chan ch) s = Panicked r s'
               ∧ e = Errorf ReceivePanic
                       [APanic r; AChan (as_chan ch); AVal zero]))
  ∧ (∀ r s', Receive ch s ≠ Panicked r s').
Proof.
  destruct (is_nil ch) eqn:Hnil.
  - rewrite (Receive_nil _ _ Hnil). repeat split; try naive_solver.
  - rewrite (Receive_non_nil _ _ Hnil).
    destruct (chanrecv _ _) as [[x1 []] s1|r1 s1|]; repeat split; naive_solver.
Qed.

(** X3. [Close] returns a nil error exactly when the channel is not nil and
    [close] returned; it returns an error exactly on a nil channel (entry
    check, state untouched) and when [close] panicked (the error carries the
    recovered value and the channel); it never panics. *)
Theorem Close_faithful ch s :
  (∀ s', Close ch s = Returned None s' ↔
     is_nil ch = false ∧ closechan (as_chan ch) s = Returned () s')
  ∧ (Close ch s = Blocked ↔
     is_nil ch = false ∧ closechan (as_chan ch) s = Blocked)
  ∧ (∀ e s', Close ch s = Returned (Some e) s' ↔
     (is_nil ch = true ∧ s' = s ∧ e = Errorf CloseNil [AChan (as_chan ch)])
     ∨ (is_nil ch = false
        ∧ ∃ r, closechan (as_chan ch) s = Panicked r s'
               ∧ e = Errorf ClosePanic [APanic r; AChan (as_chan ch)]))
  ∧ (∀ r s', Close ch s ≠ Panicked r s').
Proof.
  destruct (is_nil ch) eqn:Hnil.
  - rewrite (Close_nil _ _ Hnil). repeat split; try naive_solver.
  - rewrite (Close_non_nil _ _ Hnil).
    destruct (closechan _ _) as [[] s1|r1 s1|]; repeat split; naive_solver.
Qed.

(** X4. [Deref] returns a value and a nil error exactly when the pointer is not
    nil and the load returned that value; it returns the zero value and an
    error exactly on a nil pointer (entry check, state untouched) and when
    the load panicked (the error carries the recovered value and the zero
    value [x] still holds); it never panics. *)
Theorem Deref_faithful p m :
  (∀ x m', Deref p m = Returned (x, None) m' ↔
     ptr_is_nil p = false ∧ load p m = Returned x m')
  ∧ (Deref p m = Blocked ↔ ptr_is_nil p = false ∧ load p m = Blocked)
  ∧ (∀ x e m', Deref p m = Returned (x, Some e) m' ↔
     x = zero
     ∧ ((ptr_is_nil p = true ∧ m' = m ∧ e = Errorf DerefNil [APtr p; AVal zero])
        ∨ (ptr_is_nil p = false
           ∧ ∃ r, load p m = Panicked r m'
                  ∧ e = Errorf DerefPanic [APanic r; APtr p; AVal zero])))
  ∧ (∀ r m', Deref p m ≠ Panicked r m').
Proof.
  destruct (ptr_is_nil p) eqn:Hnil.
  - rewrite (Deref_nil _ _ Hnil). repeat split; try naive_solver.
  - rewrite (Deref_non_nil _ _ Hnil).
    destruct (load _ _) as [x1 m1|r1 m1|]; repeat split; naive_solver.
Qed.

(** X5. Whatever the runtime, every error a guard returns has as many operands
    as its message has verbs, in the format of either revision, and names
    the channel or pointer it was called on; the error of [Send] ends with
    the value that was to be sent. [Send] and [Close] report a nil channel or
    a fault, [Deref] a nil pointer or a fault; a closed channel is reported
    by [Receive] only. *)
Theorem errors_carry_context ch value p s m :
  (∀ e s', Send ch value s = Returned (Some e) s' →
     well_formed e ∧ AChan (as_chan ch) ∈ err_args e
     ∧ last (err_args e) = Some (AVal value)
     ∧ (err_kind e = NilChannel ∨ err_kind e = OperationFault))
  ∧ (∀ x e s', Receive ch s = Returned (x, Some e) s' →
     well_formed e ∧ AChan (as_chan ch) ∈ err_args e
     ∧ last (err_args e) = Some (AVal x)
     ∧ err_kind e ≠ NilReference)
  ∧ (∀ e s', Close ch s = Returned (Some e) s' →
     well_formed e ∧ last (err_args e) = Some (AChan (as_chan ch))
     ∧ (err_kind e = NilChannel ∨ err_kind e = OperationFault))
  ∧ (∀ x e m', Deref p m = Returned (x, Some e) m' →
     well_formed e ∧ APtr p ∈ err_args e
     ∧ last (err_args e) = Some (AVal x)
     ∧ (err_kind e = NilReference ∨ err_kind e = OperationFault)).
Proof.
  assert (Hwf : ∀ st args, length args = verbs (format Plain st) →
            length args = verbs (format Bracketed st) →
            well_formed (Errorf (T:=T) st args)).
  { intros st args H1 H2 []; [exact (eq_sym H1)|exact (eq_sym H2)]. }
  split; [|split; [|split]].
  - intros e s'. destruct (is_nil ch) eqn:Hnil.
    + rewrite (Send_nil _ _ _ Hnil). intros; simplify_eq.
      split; [by apply Hwf|]. simpl. set_solver.
    + rewrite (Send_non_nil _ _ _ Hnil).
      destruct (chansend _ _ _) as [[] s1|r1 s1|]; intros; simplify_eq.
      split; [by apply Hwf|]. simpl. set_solver.
  - intros x e s'. destruct (is_nil ch) eqn:Hnil.
    + rewrite (Receive_nil _ _ Hnil). intros; simplify_eq.
      split; [by apply Hwf|]. simpl. set_solver.
    + rewrite (Receive_non_nil _ _ Hnil).
      destruct (chanrecv _ _) as [[x1 []] s1|r1 s1|]; intros; simplify_eq;
        (split; [by apply Hwf|]); simpl; set_solver.
  - intros e s'. destruct (is_nil ch) eqn:Hnil.
    + rewrite (Close_nil _ _ Hnil). intros; simplify_eq.
      split; [by apply Hwf|]. simpl. auto.
    + rewrite (Close_non_nil _ _ Hnil).
      destruct (closechan _ _) as [[] s1|r1 s1|]; intros; simplify_eq.
      split; [by apply Hwf|]. simpl. auto.
  - intros x e m'. destruct (ptr_is_nil p) eqn:Hnil.
    + rewrite (Deref_nil _ _ Hnil). intros; simplify_eq.
      split; [by apply Hwf|]. simpl. set_solver.
    + rewrite (Deref_non_nil _ _ Hnil).
      destruct (load _ _) as [x1 m1|r1 m1|]; intros; simplify_eq.
      split; [by apply Hwf|]. simpl. set_solver.
Qed.
End Faithful.

(** ** Runs on the Go runtime: what happens to the channels *)

Section GoRuns.
Context {T C : Type} `{!Zero T, !ChanLike C}.
Implicit Types (ch : C) (c : chan) (h : heap T) (a : addr) (q : hchan T).
Implicit Types (o : op T C) (r : result T).

Lemma run_op_effect o r h h' : run_op o h = Returned r h' → op_effect h o r h'.
Proof.
  destruct o as [ch|ch value|ch]; simpl; unfold mbind, exec_bind, mret, exec_ret.
  - destruct (is_nil ch) eqn:Hnil.
    { rewrite (Close_nil _ _ Hnil). intros; simplify_eq. by constructor. }
    unfold is_nil in Hnil. destruct (as_chan ch) as [a|] eqn:Ha; [|done].
    destruct (h !! a) as [q|] eqn:Hq.
    + destruct (closed q) eqn:Hc.
      * rewrite (Close_closed _ _ _ _ Ha Hq Hc). intros; simplify_eq.
        by constructor.
      * rewrite (Close_open _ _ _ _ Ha Hq Hc). intros; simplify_eq.
        by apply effect_close.
    + rewrite (Close_dangling _ _ _ Ha Hq). intros; simplify_eq. by constructor.
  - destruct (is_nil ch) eqn:Hnil.
    { rewrite (Send_nil _ _ _ Hnil). intros; simplify_eq. by constructor. }
    unfold is_nil in Hnil. destruct (as_chan ch) as [a|] eqn:Ha; [|done].
    destruct (h !! a) as [q|] eqn:Hq.
    + destruct (closed q) eqn:Hc.
      * rewrite (Send_closed _ _ _ _ _ Ha Hq Hc). intros; simplify_eq.
        by constructor.
      * destruct (decide (length (buf q) < dataqsiz q)) as [Hlt|Hge].
        -- rewrite (Send_open_room _ _ _ _ _ Ha Hq Hc Hlt). intros; simplify_eq.
           by apply effect_send.
        -- rewrite (Send_open_full _ _ _ _ _ Ha Hq Hc); [done|lia].
    + rewrite (Send_dangling _ _ _ _ Ha Hq). intros; simplify_eq. by constructor.
  - destruct (is_nil ch) eqn:Hnil.
    { rewrite (Receive_nil _ _ Hnil). intros; simplify_eq. by constructor. }
    unfold is_nil in Hnil. destruct (as_chan ch) as [a|] eqn:Ha; [|done].
    destruct (h !! a) as [q|] eqn:Hq.
    + destruct (buf q) as [|v vs] eqn:Hb.
      * destruct (closed q) eqn:Hc.
        -- rewrite (Receive_closed_empty _ _ _ _ Ha Hq Hb Hc).
           intros; simplify_eq. by constructor.
        -- by rewrite (Receive_open_empty _ _ _ _ Ha Hq Hb Hc).
      * rewrite (Receive_buffered _ _ _ _ _ _ Ha Hq Hb). intros; simplify_eq.
        by eapply effect_receive.
    + rewrite (Receive_dangling _ _ _ Ha Hq). intros; simplify_eq.
      by constructor.
Qed.

Lemma error_no_traffic o r c :
  is_Some (result_err r) → sent_by c o r = [] ∧ received_by c o r = [].
Proof. intros [e He]. destruct o, r; simpl in *; by subst. Qed.

(** One returned call, seen from the channel at [a]. *)
Lemma op_effect_channel o r h h1 a q :
  op_effect h o r h1 → h !! a = Some q →
  ∃ q1, h1 !! a = Some q1
    ∧ received_by (Some a) o r ++ buf q1 = buf q ++ sent_by (Some a) o r
    ∧ dataqsiz q1 = dataqsiz q
    ∧ (closed q = true → closed q1 = true ∧ sent_by (Some a) o r = [])
    ∧ (length (buf q) ≤ dataqsiz q → length (buf q1) ≤ dataqsiz q1)
    ∧ (op_chan o ≠ Some a → q1 = q).
Proof.
  intros Heff Hq. destruct Heff as [o r Herr|ch a0 q0 Ha Hq0 Hc
    |ch value a0 q0 Ha Hq0 Hc Hlt|ch a0 q0 v vs Ha Hq0 Hb].
  - destruct (error_no_traffic o r (Some a) Herr) as [-> ->].
    exists q. by rewrite app_nil_r.
  - destruct (decide (a = a0)) as [->|Hne].
    + simplify_eq. eexists. rewrite lookup_insert_eq. split; [done|].
      simpl. rewrite app_nil_r, Hc. repeat split; first [done|congruence].
    + exists q. rewrite lookup_insert_ne by done. by rewrite app_nil_r.
  - destruct (decide (a = a0)) as [->|Hne].
    + simplify_eq. eexists. rewrite lookup_insert_eq. split; [done|].
      simpl. rewrite Ha, bool_decide_true by done. rewrite Hc.
      repeat split;
        first [done|congruence|intros _; rewrite length_app; simpl; lia].
    + exists q. rewrite lookup_insert_ne by done. simpl.
      rewrite Ha, bool_decide_false by congruence. by rewrite app_nil_r.
  - destruct (decide (a = a0)) as [->|Hne].
    + simplify_eq. eexists. rewrite lookup_insert_eq. split; [done|].
      simpl. rewrite Ha, bool_decide_true by done. rewrite Hb, app_nil_r.
      repeat split; first [done|congruence|simpl; lia].
    + exists q. rewrite lookup_insert_ne by done. simpl.
      rewrite Ha, bool_decide_false by congruence. by rewrite app_nil_r.
Qed.

Lemma op_effect_absent o r h h1 a :
  op_effect h o r h1 → h !! a = None → h1 !! a = None.
Proof.
  intros Heff Hq. destruct Heff; [done|..];
    (rewrite lookup_insert_ne; [done|congruence]).
Qed.

(** A run, seen from the channel at [a]. *)
Lemma run_ops_channel os rs h h' a q :
  run_ops os h = Returned rs h' → h !! a = Some q →
  ∃ q', h' !! a = Some q'
    ∧ received_from (Some a) os rs ++ buf q'
      = buf q ++ sent_to (Some a) os rs
    ∧ dataqsiz q' = dataqsiz q
    ∧ (closed q = true → closed q' = true ∧ sent_to (Some a) os rs = [])
    ∧ (length (buf q) ≤ dataqsiz q → length (buf q') ≤ dataqsiz q')
    ∧ (Forall (λ o, op_chan o ≠ Some a) os → q' = q).
Proof.
  revert rs h q. induction os as [|o os IH]; intros rs h q Hrun Hq.
  - simpl in Hrun. unfold mret, exec_ret in Hrun. simplify_eq.
    exists q. by rewrite app_nil_r.
  - apply run_ops_cons in Hrun as (r & rs' & h1 & -> & Hop & Hrun).
    apply run_op_effect in Hop.
    destruct (op_effect_channel _ _ _ _ _ _ Hop Hq)
      as (q1 & Hq1 & Hfifo1 & Hcap1 & Hcl1 & Hlen1 & Hsame1).
    destruct (IH _ _ _ Hrun Hq1)
      as (q' & Hq' & Hfifo & Hcap & Hcl & Hlen & Hsame).
    exists q'. split; [done|]. simpl. split; [|split; [|split; [|split]]].
    + rewrite <-(assoc_L (++)), Hfifo, (assoc_L (++)), Hfifo1.
      by rewrite <-(assoc_L (++)).
    + congruence.
    + intros Hc. destruct (Hcl1 Hc) as [Hc1 ->]. by destruct (Hcl Hc1) as [? ->].
    + auto.
    + intros [Ho Hos]%Forall_cons. rewrite (Hsame Hos). auto.
Qed.

Lemma run_ops_absent os rs h h' a :
  run_ops os h = Returned rs h' → h !! a = None → h' !! a = None.
Proof.
  revert rs h. induction os as [|o os IH]; intros rs h Hrun Hq.
  - simpl in Hrun. unfold mret, exec_ret in Hrun. by simplify_eq.
  - apply run_ops_cons in Hrun as (r & rs' & h1 & -> & Hop & Hrun).
    apply run_op_effect in Hop. eauto using op_effect_absent.
Qed.
End GoRuns.

(** ** What a run of guarded calls does to the channels *)

Section GoRunProperties.
Context {T C : Type} `{!Zero T, !ChanLike C}.
Implicit Types (ch : C) (c : chan) (h : heap T) (a : addr) (q : hchan T).
Implicit Types (os : list (op T C)) (rs : list (result T)).

(** X6. The guards never allocate or free a channel, never change a capacity,
    and a run leaves alone every channel that none of its calls is made
    on. *)
Theorem run_keeps_other_channels os rs h h' :
  run_ops os h = Returned rs h' →
  dom h' = dom h
  ∧ (∀ a q, h !! a = Some q →
       ∃ q', h' !! a = Some q' ∧ dataqsiz q' = dataqsiz q)
  ∧ (∀ a, Forall (λ o, op_chan o ≠ Some a) os → h' !! a = h !! a).
Proof.
  intros Hrun. split; [|split].
  - apply set_eq. intros a. rewrite !elem_of_dom.
    destruct (h !! a) as [q|] eqn:Hq.
    + destruct (run_ops_channel _ _ _ _ _ _ Hrun Hq) as (q' & -> & _). done.
    + by rewrite (run_ops_absent _ _ _ _ _ Hrun Hq).
  - intros a q Hq.
    destruct (run_ops_channel _ _ _ _ _ _ Hrun Hq) as (q' & ? & _ & ? & _).
    eauto.
  - intros a Hos. destruct (h !! a) as [q|] eqn:Hq.
    + destruct (run_ops_channel _ _ _ _ _ _ Hrun Hq)
        as (q' & -> & _ & _ & _ & _ & Hsame).
      by rewrite (Hsame Hos).
    + by rewrite (run_ops_absent _ _ _ _ _ Hrun Hq).
Qed.

(** X7. If no buffer holds more values than its capacity before a run, none
    does after it. *)
Theorem run_keeps_buffers_bounded os rs h h' :
  run_ops os h = Returned rs h' →
  (∀ a q, h !! a = Some q → length (buf q) ≤ dataqsiz q) →
  ∀ a q', h' !! a = Some q' → length (buf q') ≤ dataqsiz q'.
Proof.
  intros Hrun Hok a q' Hq'. destruct (h !! a) as [q|] eqn:Hq.
  - destruct (run_ops_channel _ _ _ _ _ _ Hrun Hq)
      as (q1 & Hq1 & _ & _ & _ & Hlen & _).
    simplify_eq. eauto.
  - rewrite (run_ops_absent _ _ _ _ _ Hrun Hq) in Hq'. done.
Qed.


(** X9. Once a channel is closed, no [Send] puts a value on it any more, in
    any run; its buffer only loses the values that are received from it. *)
Theorem closed_channel_only_drains os rs h h' a q :
  run_ops os h = Returned rs h' → h !! a = Some q → closed q = true →
  sent_to (Some a) os rs = []
  ∧ ∃ q', h' !! a = Some q' ∧ closed q' = true
          ∧ buf q = received_from (Some a) os rs ++ buf q'.
Proof.
  intros Hrun Hq Hc.
  destruct (run_ops_channel _ _ _ _ _ _ Hrun Hq)
    as (q' & Hq' & Hfifo & _ & Hcl & _).
  destruct (Hcl Hc) as [Hc' Hsent]. split; [done|].
  exists q'. rewrite Hsent, app_nil_r in Hfifo. done.
Qed.


(** Receiving as many times as the buffer holds values returns them oldest
    first, without error, whether the channel is closed or not. *)
Lemma Receive_drains ch a (vs : list T) : ∀ h q,
  as_chan ch = Some a → h !! a = Some q → buf q = vs →
  run_ops (replicate (length vs) (OpReceive ch)) h
  = Returned ((λ v, RReceive v None) <$> vs)
      (<[a := Hchan [] (dataqsiz q) (closed q)]> h).
Proof.
  induction vs as [|v vs IH]; intros h q Ha Hq Hb.
  - simpl. unfold mret, exec_ret. rewrite insert_id; [done|].
    rewrite Hq. destruct q; simpl in *. by subst.
  - simpl. unfold mbind, exec_bind at 1. simpl.
    unfold mbind, exec_bind at 1.
    rewrite (Receive_buffered _ _ _ _ _ _ Ha Hq Hb).
    unfold mret at 1, exec_ret at 1. unfold mbind, exec_bind.
    erewrite IH; [|done|apply lookup_insert_eq|done].
    simpl. by rewrite insert_insert_eq.
Qed.

(** X11. Closing does not discard what is buffered: after [Close] on an open
    channel, as many [Receive]s as there are buffered values return them
    oldest first without error; from then on [Receive] returns the zero
    value and the closed-channel error, and changes nothing. *)
Theorem values_survive_Close ch h a q :
  as_chan ch = Some a → h !! a = Some q → closed q = false →
  let h' := <[a := Hchan [] (dataqsiz q) true]> h in
  run_ops (OpClose ch :: replicate (length (buf q)) (OpReceive ch)) h
  = Returned (RClose None :: ((λ v, RReceive v None) <$> buf q)) h'
  ∧ Receive ch h'
    = Returned (zero, Some (Errorf ReceiveClosed [AChan (Some a); AVal zero]))
        h'.
Proof.
  intros Ha Hq Hc h'. split.
  - cbn [run_ops run_op]. unfold mbind, exec_bind at 1.
    unfold mbind, exec_bind at 1. rewrite (Close_open _ _ _ _ Ha Hq Hc).
    unfold mret at 1, exec_ret at 1. unfold mbind, exec_bind.
    erewrite Receive_drains; [|done|apply lookup_insert_eq|done].
    simpl. unfold h'. by rewrite insert_insert_eq.
  - eapply Receive_closed_empty; [done|apply lookup_insert_eq|done..].
Qed.
End GoRunProperties.

(** ** The outcome of [Close] by the state of the channel *)

Section GoOutcomes.
Context {T C : Type} `{!Zero T, !ChanLike C}.
Implicit Types (ch : C) (value : T) (h : heap T) (a : addr) (q : hchan T).

(** Closes the rows of an outcome table once the call is rewritten to its
    result. *)
Local Ltac table :=
  repeat split; intros;
  repeat match goal with
    | H : ex _ |- _ => destruct H
    | H : _ ∧ _ |- _ => destruct H
    end;
  simplify_eq; try done; try lia; try congruence; eauto 10.

(** X14. [Close] returns a nil error exactly on an open channel, which it marks
    closed keeping its buffer; it never blocks; when it returns an error the
    heap is unchanged, and the error is the nil-channel one exactly when the
    channel is nil. *)
Theorem Close_outcome ch h :
  (∀ h', Close ch h = Returned None h' ↔
     ∃ a q, as_chan ch = Some a ∧ h !! a = Some q ∧ closed q = false
            ∧ h' = <[a := Hchan (buf q) (dataqsiz q) true]> h)
  ∧ Close ch h ≠ Blocked
  ∧ (∀ e h', Close ch h = Returned (Some e) h' →
     h' = h ∧ state_of h (as_chan ch) ≠ Open
     ∧ (err_kind e = NilChannel ↔ is_nil ch = true)).
Proof.
  destruct (is_nil ch) eqn:Hnil.
  { rewrite (Close_nil _ _ Hnil). unfold is_nil in Hnil.
    destruct (as_chan ch); [done|]. table. }
  unfold is_nil in Hnil. destruct (as_chan ch) as [a|] eqn:Ha; [|done].
  unfold state_of. destruct (h !! a) as [q|] eqn:Hq.
  2:{ rewrite (Close_dangling _ _ _ Ha Hq). table. }
  destruct (closed q) eqn:Hc.
  - rewrite (Close_closed _ _ _ _ Ha Hq Hc). table.
  - rewrite (Close_open _ _ _ _ Ha Hq Hc). table.
Qed.
End GoOutcomes.

(** X15. From any heap, [main] prints its three failure lines and never a
    success line: the send fails on the channel it has just closed, the
    receive reports that channel closed, the close fails on the nil channel.
    It leaves one more channel in the heap, closed and empty, and the
    channels that were there as they were. *)
Theorem main_prints_failures (h : heap Z) :
  let a := fresh (dom h) in
  main_stdout h = Returned
    [SendFailed (Errorf SendPanic
       [APanic "send on closed channel"; AChan (Some a); AVal 42%Z]);
     ReceiveFailed (Errorf ReceiveClosed [AChan (Some a); AVal 0%Z]);
     CloseFailed (Errorf CloseNil [AChan None])]
    (<[a := Hchan [] 0 true]> h)
  ∧ h !! a = None.
Proof.
  intros a. split; [|apply not_elem_of_dom, is_fresh].
  unfold main_stdout, makechan. unfold mbind, exec_bind at 1. fold a.
  unfold mbind, exec_bind at 1. simpl. unfold go_closechan.
  rewrite lookup_insert_eq. simpl. rewrite insert_insert_eq.
  unfold mbind, exec_bind at 1.
  erewrite (Send_closed (C:=chan));
    [|reflexivity|apply lookup_insert_eq|reflexivity].
  unfold mbind, exec_bind at 1.
  erewrite (Receive_closed_empty (C:=chan));
    [|reflexivity|apply lookup_insert_eq|reflexivity..].
  unfold mbind, exec_bind at 1. by rewrite Close_nil.
Qed.

(** ** Runs on two channels of integers *)

Lemma run_keeps_other_channels_witness :
  let ch : chan := Some 1%positive in
  let h : heap Z :=
    {[1%positive := Hchan [] 2 false; 2%positive := Hchan [3%Z] 1 false]} in
  let os := [OpSend ch 7%Z; OpClose ch; OpReceive ch; OpSend ch 8%Z] in
  ∃ rs h',
    run_ops os h = Returned rs h'
    ∧ dom h' = dom h
    ∧ h' !! 2%positive = Some (Hchan [3%Z] 1 false)
    ∧ ∃ q', h' !! 1%positive = Some q' ∧ dataqsiz q' = 2.
Proof.
  intros ch h os.
  assert (∃ rs h', run_ops os h = Returned rs h') as (rs & h' & Hrun)
    by (eexists _, _; vm_compute; reflexivity).
  exists rs, h'. split; [exact Hrun|].
  destruct (run_keeps_other_channels os rs h h' Hrun) as (Hdom & Hcap & Hsame).
  split; [exact Hdom|]. split.
  - etrans; [apply (Hsame 2%positive)|reflexivity].
    repeat constructor; discriminate.
  - apply (Hcap 1%positive (Hchan [] 2 false)). reflexivity.
Defined.

Lemma run_keeps_buffers_bounded_witness :
  let ch : chan := Some 1%positive in
  let h : heap Z := {[1%positive := Hchan [5%Z] 2 false]} in
  let os := [OpSend ch 7%Z; OpReceive ch; OpSend ch 8%Z] in
  ∃ rs h',
    run_ops os h = Returned rs h'
    ∧ ∀ a q', h' !! a = Some q' → length (buf q') ≤ dataqsiz q'.
Proof.
  intros ch h os.
  assert (∃ rs h', run_ops os h = Returned rs h') as (rs & h' & Hrun)
    by (eexists _, _; vm_compute; reflexivity).
  exists rs, h'. split; [exact Hrun|].
  apply (run_keeps_buffers_bounded os rs h h' Hrun).
  intros a q [<- <-]%lookup_singleton_Some. simpl. lia.
Defined.


Lemma closed_channel_only_drains_witness :
  let ch : chan := Some 1%positive in
  let h : heap Z := {[1%positive := Hchan [5%Z; 6%Z] 3 true]} in
  let os := [OpSend ch 7%Z; OpReceive ch; OpClose ch; OpSend ch 9%Z] in
  ∃ rs h',
    run_ops os h = Returned rs h'
    ∧ sent_to ch os rs = []
    ∧ ∃ q', h' !! 1%positive = Some q' ∧ closed q' = true
            ∧ [5%Z; 6%Z] = received_from ch os rs ++ buf q'.
Proof.
  intros ch h os.
  assert (∃ rs h', run_ops os h = Returned rs h') as (rs & h' & Hrun)
    by (eexists _, _; vm_compute; reflexivity).
  exists rs, h'. split; [exact Hrun|].
  apply (closed_channel_only_drains os rs h h' 1%positive
           (Hchan [5%Z; 6%Z] 3 true) Hrun); reflexivity.
Defined.


Lemma values_survive_Close_witness :
  let ch : chan := Some 1%positive in
  let h : heap Z := {[1%positive := Hchan [42%Z; 43%Z] 2 false]} in
  let h' : heap Z := <[1%positive := Hchan [] 2 true]> h in
  run_ops [OpClose ch; OpReceive ch; OpReceive ch] h
  = Returned [RClose None; RReceive 42%Z None; RReceive 43%Z None] h'
  ∧ Receive ch h'
    = Returned (0%Z, Some (Errorf ReceiveClosed
                             [AChan (Some 1%positive); AVal 0%Z])) h'.
Proof.
  intros ch h h'.
  apply (values_survive_Close ch h 1%positive (Hchan [42%Z; 43%Z] 2 false));
    reflexivity.
Defined.

(** ** The guards on channels with parked goroutines *)

Section ParkedGoroutines.
Context {T C : Type} `{!Zero T, !ChanLike C}.
Implicit Types (ch : C) (value : T) (c : chan) (a : addr).
Implicit Types (h : heap T) (g : gmap addr (wchan T)) (w : wchan T).




(** Rendezvous on a channel without buffer: a [Send] that finds a receiver
    parked returns at once, and a [Receive] that finds a sender parked
    returns its value; with nobody parked each of them parks. *)
Example Send_rendezvous :
  let ch : chan := Some 1%positive in
  Send ch 42%Z ({[1%positive := Wchan (Hchan [] 0 false) 1 []]}
                  : gmap addr (wchan Z))
  = Returned None {[1%positive := Wchan (Hchan [] 0 false) 0 []]}
  ∧ Send ch 42%Z ({[1%positive := Wchan (Hchan [] 0 false) 0 []]}
                    : gmap addr (wchan Z))
    = Blocked.
Proof. split; vm_compute; reflexivity. Qed.

Example Receive_rendezvous :
  let ch : chan := Some 1%positive in
  Receive ch ({[1%positive := Wchan (Hchan [] 0 false) 0 [42%Z]]}
                : gmap addr (wchan Z))
  = Returned (42%Z, None) {[1%positive := Wchan (Hchan [] 0 false) 0 []]}
  ∧ Receive ch ({[1%positive := Wchan (Hchan [] 0 false) 0 []]}
                  : gmap addr (wchan Z))
    = Blocked.
Proof. split; vm_compute; reflexivity. Qed.




End ParkedGoroutines.
